(** * Meme generator (script.js): text-fit engine and curtain selection

    A shallow embedding of [script.js].  The page is a record holding the
    three form inputs, the children of [.meme-grid] in document order and the
    two window widths the resize handler compares.  A meme is the
    [button.meme-container] element with the attributes the script reads or
    writes.  What the browser computes (the rendered heights read through
    [offsetHeight]) is an oracle passed to the handlers.

    The two recursive procedures of the script have no bound of their own, so
    they are embedded with a fuel argument that bounds the depth of the
    recursion; [None] means the fuel ran out before the procedure returned. *)

From Stdlib Require Import ZArith Ascii String.
From stdpp Require Import base tactics option list strings.

Local Open Scope Z_scope.

(** ** Data model *)

(** A [.meme-container] element.  [fontSize] is the element's font size in
    px, as [parseInt(getComputedStyle(m).getPropertyValue("font-size"))] reads
    it and [m.style.fontSize = n + "px"] writes it.  [toggleVisibility] is the
    [data-toggle-visibility] attribute of the [.curtain] child, and
    [hoverListeners] records whether [generateMeme] attached the
    mouseover/mouseleave listeners. *)
Record Meme : Type := mkMeme {
  src : string;
  alt : string;
  topText : string;
  bottomText : string;
  fontSize : Z;
  toggleVisibility : bool;
  hoverListeners : bool
}.

(** [memeContainer.style.fontSize = n + "px"] *)
Definition setFontSize (n : Z) (m : Meme) : Meme :=
  {| src := src m; alt := alt m; topText := topText m;
     bottomText := bottomText m; fontSize := n;
     toggleVisibility := toggleVisibility m;
     hoverListeners := hoverListeners m |}.

(** [curtain.dataset.toggleVisibility = b] *)
Definition setToggleVisibility (b : bool) (m : Meme) : Meme :=
  {| src := src m; alt := alt m; topText := topText m;
     bottomText := bottomText m; fontSize := fontSize m;
     toggleVisibility := b;
     hoverListeners := hoverListeners m |}.

(** The rendered box heights the script reads with [offsetHeight]: of the two
    caption paragraphs and of the container.  They are the browser's answer
    for the element as it is now (its texts, image and font size) at the
    current window width. *)
Record Layout : Type := mkLayout {
  topOffsetHeight : Meme -> Z;
  bottomOffsetHeight : Meme -> Z;
  containerOffsetHeight : Meme -> Z
}.

(** The page: the form's inputs, the memes of the grid in document order,
    [window.innerWidth], the global [oldWindowWidth] and [mqlHover.matches]. *)
Record Page : Type := mkPage {
  imageInput : string;
  topTextInput : string;
  bottomTextInput : string;
  memeGrid : list Meme;
  innerWidth : Z;
  oldWindowWidth : Z;
  mqlHover : bool
}.

Definition setMemeGrid (g : list Meme) (p : Page) : Page :=
  {| imageInput := imageInput p; topTextInput := topTextInput p;
     bottomTextInput := bottomTextInput p; memeGrid := g;
     innerWidth := innerWidth p; oldWindowWidth := oldWindowWidth p;
     mqlHover := mqlHover p |}.

(** ** Text-fit engine *)

Section TextFit.

Variable L : Layout.

(** [textFits]: does the caption fit height-wise within its container? *)
Definition textFits (memeContainer : Meme) : bool :=
  let textHeight :=
    topOffsetHeight L memeContainer + bottomOffsetHeight L memeContainer in
  let containerHeight := containerOffsetHeight L memeContainer in
  textHeight <=? containerHeight.

(** The caption fits once the container's font size is [k]. *)
Definition fitsAt (m : Meme) (k : Z) : bool := textFits (setFontSize k m).

(** [shrinkTextToFitHelper]: stop if the text fits; otherwise write
    [oldFontSize - 1] and iterate. *)
Fixpoint shrinkTextToFitHelper (fuel : nat) (memeContainer : Meme)
    (oldFontSize : Z) : option Meme :=
  match fuel with
  | O => None
  | S fuel' =>
      if textFits memeContainer then Some memeContainer
      else
        let newFontSize := oldFontSize - 1 in
        shrinkTextToFitHelper fuel'
          (setFontSize newFontSize memeContainer) newFontSize
  end.

(** [shrinkTextToFit], once its argument is resolved to the container: read
    the computed font size and start the helper from it. *)
Definition shrinkTextToFit (fuel : nat) (memeContainer : Meme)
    : option Meme :=
  let originalFontSize := fontSize memeContainer in
  shrinkTextToFitHelper fuel memeContainer originalFontSize.

(** [growTextToFit]: return at 40px or more; backtrack with a shrink pass
    when the text does not fit; otherwise write [fontSize + 1] and iterate. *)
Fixpoint growTextToFit (fuel : nat) (memeContainer : Meme) : option Meme :=
  match fuel with
  | O => None
  | S fuel' =>
      let fontSize := fontSize memeContainer in
      if 40 <=? fontSize then Some memeContainer
      else if negb (textFits memeContainer) then
        shrinkTextToFit fuel' memeContainer
      else
        let newFontSize := fontSize + 1 in
        growTextToFit fuel' (setFontSize newFontSize memeContainer)
  end.

End TextFit.

(** ** Curtain selection *)

(** Modelled from the spec: the stylesheet that turns the curtain's
    [data-toggle-visibility] attribute into its computed [visibility] is not
    under src/.  The spec's card is armed exactly when its curtain is
    visible, and the script arms a card by writing ["true"] to the attribute,
    so the computed value is ["visible"] for ["true"] and ["hidden"]
    otherwise. *)
Definition curtainVisibility (memeElement : Meme) : string :=
  if toggleVisibility memeElement then "visible"%string else "hidden"%string.

(** [ownCurtainVisible]: is the meme's [.curtain] child visible? *)
Definition ownCurtainVisible (memeElement : Meme) : bool :=
  String.eqb (curtainVisibility memeElement) "visible".

(** [document.querySelector(".curtain[data-toggle-visibility='true']")]: the
    position of the first meme of the grid whose curtain carries ["true"]. *)
Definition querySelectorCurtain (grid : list Meme) : option nat :=
  fst <$> list_find (λ m, toggleVisibility m = true) grid.

(** [removeCurtain]: if some curtain is visible, hide the first such one. *)
Definition removeCurtain (grid : list Meme) : list Meme :=
  match querySelectorCurtain grid with
  | Some curtain => alter (setToggleVisibility false) curtain grid
  | None => grid
  end.

(** [addCurtain]: make the given meme's curtain visible. *)
Definition addCurtain (memeElement : nat) (grid : list Meme) : list Meme :=
  alter (setToggleVisibility true) memeElement grid.

(** [deleteMeme]: remove the given element from the tree. *)
Definition deleteMeme (memeElement : nat) (grid : list Meme) : list Meme :=
  delete memeElement grid.

(** [e.target.closest(".meme-container")]: a click lands on the meme at some
    position of the grid or outside every meme; a position the grid does not
    have is no meme. *)
Definition closestMeme (grid : list Meme) (target : option nat)
    : option (nat * Meme) :=
  match target with
  | Some i => match grid !! i with Some m => Some (i, m) | None => None end
  | None => None
  end.

(** [memeClickHandler]: a click on a meme whose curtain is visible deletes that
    meme; any other click removes the visible curtain and, on a meme, adds
    that meme's curtain. *)
Definition memeClickHandler (target : option nat) (p : Page) : Page :=
  let memeElement := closestMeme (memeGrid p) target in
  match memeElement with
  | Some (i, m) =>
      if ownCurtainVisible m then setMemeGrid (deleteMeme i (memeGrid p)) p
      else setMemeGrid (addCurtain i (removeCurtain (memeGrid p))) p
  | None => setMemeGrid (removeCurtain (memeGrid p)) p
  end.

(** [mouseOverHandler] *)
Definition mouseOverHandler (memeElement : nat) (p : Page) : Page :=
  setMemeGrid (addCurtain memeElement (removeCurtain (memeGrid p))) p.

(** [mouseLeaveHandler]: [memeElement] is read and not used. *)
Definition mouseLeaveHandler (memeElement : nat) (p : Page) : Page :=
  setMemeGrid (removeCurtain (memeGrid p)) p.

(** ** Form submission *)

(** [String.prototype.toUpperCase] on ASCII text: the letters a-z go to A-Z
    and every other character stays. *)
Definition upperChar (c : ascii) : ascii :=
  let n := N_of_ascii c in
  if ((97 <=? n) && (n <=? 122))%N then ascii_of_N (n - 32) else c.

Fixpoint toUpperCase (s : string) : string :=
  match s with
  | EmptyString => EmptyString
  | String c s' => String (upperChar c) (toUpperCase s')
  end.

(** [generateMeme]: build the meme from the three inputs, append it to the
    grid and reset the inputs.  [cssFontSize] is the font size the stylesheet
    (not under src/) gives the new container. *)
Definition generateMeme (cssFontSize : Z) (p : Page) : Page :=
  let imageURL := imageInput p in
  let memeContainer :=
    {| src := imageURL;
       alt := "failed to load image";
       topText := toUpperCase (topTextInput p);
       bottomText := toUpperCase (bottomTextInput p);
       fontSize := cssFontSize;
       toggleVisibility := false;
       hoverListeners := mqlHover p |} in
  {| imageInput := "";
     topTextInput := "";
     bottomTextInput := "";
     memeGrid := memeGrid p ++ [memeContainer];
     innerWidth := innerWidth p;
     oldWindowWidth := oldWindowWidth p;
     mqlHover := mqlHover p |}.

(** ** Resize and image load *)

(** [adjustMemeTextSize]: shrink every meme when the window got narrower, grow
    every meme when it got wider, and remember the width. *)
Definition adjustMemeTextSize (L : Layout) (fuel : nat) (p : Page)
    : option Page :=
  let currentWindowWidth := innerWidth p in
  let memeList := memeGrid p in
  memeList' ←
    (if currentWindowWidth <? oldWindowWidth p then
       mapM (shrinkTextToFit L fuel) memeList
     else if oldWindowWidth p <? currentWindowWidth then
       mapM (growTextToFit L fuel) memeList
     else Some memeList);
  Some {| imageInput := imageInput p; topTextInput := topTextInput p;
          bottomTextInput := bottomTextInput p; memeGrid := memeList';
          innerWidth := innerWidth p; oldWindowWidth := currentWindowWidth;
          mqlHover := mqlHover p |}.

(** The load listener of a meme's image: [shrinkTextToFit] called with the
    event, which resolves [currentTarget.parentElement] to the meme. *)
Definition imageLoadHandler (L : Layout) (fuel : nat) (i : nat) (p : Page)
    : option Page :=
  match memeGrid p !! i with
  | Some memeContainer =>
      m' ← shrinkTextToFit L fuel memeContainer;
      Some (setMemeGrid (<[i := m']> (memeGrid p)) p)
  | None => Some p
  end.

(** ** Events *)

(** What the browser delivers to the page.  A submit comes with the font size
    the stylesheet gives the new element; a resize with the new width and the
    layout at that width; an image load with the layout at that moment.
    Typing into the form and a change of the hover capability change the
    state the handlers read. *)
Inductive Event : Type :=
  | Submit (cssFontSize : Z)
  | Click (target : option nat)
  | MouseOver (memeElement : nat)
  | MouseLeave (memeElement : nat)
  | Resize (width : Z) (L : Layout)
  | ImageLoad (memeElement : nat) (L : Layout)
  | TypeInputs (url top bottom : string)
  | HoverChange (matches : bool).

Definition setInnerWidth (w : Z) (p : Page) : Page :=
  {| imageInput := imageInput p; topTextInput := topTextInput p;
     bottomTextInput := bottomTextInput p; memeGrid := memeGrid p;
     innerWidth := w; oldWindowWidth := oldWindowWidth p;
     mqlHover := mqlHover p |}.

Definition setInputs (url top bottom : string) (p : Page) : Page :=
  {| imageInput := url; topTextInput := top; bottomTextInput := bottom;
     memeGrid := memeGrid p; innerWidth := innerWidth p;
     oldWindowWidth := oldWindowWidth p; mqlHover := mqlHover p |}.

Definition setMqlHover (b : bool) (p : Page) : Page :=
  {| imageInput := imageInput p; topTextInput := topTextInput p;
     bottomTextInput := bottomTextInput p; memeGrid := memeGrid p;
     innerWidth := innerWidth p; oldWindowWidth := oldWindowWidth p;
     mqlHover := b |}.

(** Does the meme at this position carry the hover listeners? *)
Definition hoverWired (grid : list Meme) (i : nat) : bool :=
  match grid !! i with
  | Some m => hoverListeners m
  | None => false
  end.

(** One event, dispatched to the listeners the script registered.  The hover
    handlers run only on a meme that got them at creation. *)
Definition dispatch (fuel : nat) (ev : Event) (p : Page) : option Page :=
  match ev with
  | Submit cssFontSize => Some (generateMeme cssFontSize p)
  | Click target => Some (memeClickHandler target p)
  | MouseOver i =>
      if hoverWired (memeGrid p) i then Some (mouseOverHandler i p)
      else Some p
  | MouseLeave i =>
      if hoverWired (memeGrid p) i then Some (mouseLeaveHandler i p)
      else Some p
  | Resize w L => adjustMemeTextSize L fuel (setInnerWidth w p)
  | ImageLoad i L => imageLoadHandler L fuel i p
  | TypeInputs url top bottom => Some (setInputs url top bottom p)
  | HoverChange b => Some (setMqlHover b p)
  end.

(** The pages reached from [p0] by a sequence of events, each handler having
    returned. *)
Inductive reaches (p0 : Page) : list Event -> Page -> Prop :=
  | reaches_nil : reaches p0 [] p0
  | reaches_snoc evs ev p p' fuel :
      reaches p0 evs p ->
      dispatch fuel ev p = Some p' ->
      reaches p0 (evs ++ [ev]) p'.

(** The same as a function: the events handled one after the other, each
    handler with the same bound on its recursion. *)
Fixpoint run (fuel : nat) (evs : list Event) (p : Page) : option Page :=
  match evs with
  | [] => Some p
  | ev :: rest => p' ← dispatch fuel ev p; run fuel rest p'
  end.

(** The page as the script finds it: no meme yet, [oldWindowWidth] set to the
    window's width. *)
Definition initialPage (width : Z) (hover : bool) : Page :=
  {| imageInput := ""; topTextInput := ""; bottomTextInput := "";
     memeGrid := []; innerWidth := width; oldWindowWidth := width;
     mqlHover := hover |}.

(** ** Armed cards *)

(** The number of memes of the grid whose curtain is visible. *)
Definition armedCount (grid : list Meme) : nat :=
  length (filter (λ m, ownCurtainVisible m = true) grid).

(** No two positions of the grid hold a meme with a visible curtain. *)
Definition atMostOneArmed (grid : list Meme) : Prop :=
  ∀ i j mi mj,
    grid !! i = Some mi -> grid !! j = Some mj ->
    ownCurtainVisible mi = true -> ownCurtainVisible mj = true -> i = j.

Definition noneArmed (grid : list Meme) : Prop :=
  Forall (λ m, ownCurtainVisible m = false) grid.

(** ** Sequences of grow passes *)

(** The grow passes a meme goes through over a sequence of widening resizes,
    each with the layout at its width and its bound on the recursion. *)
Fixpoint growPasses (passes : list (Layout * nat)) (memeContainer : Meme)
    : option Meme :=
  match passes with
  | [] => Some memeContainer
  | (L, fuel) :: rest =>
      m' ← growTextToFit L fuel memeContainer;
      growPasses rest m'
  end.

(** ** A sample layout *)

(** Each caption paragraph is one line box as tall as the font size (a font
    size below zero renders as zero) plus [pad] px of padding, and the
    container is [h] px tall. *)
Definition lineLayout (pad h : Z) : Layout :=
  {| topOffsetHeight := λ m, Z.max 0 (fontSize m) + pad;
     bottomOffsetHeight := λ m, Z.max 0 (fontSize m) + pad;
     containerOffsetHeight := λ _, h |}.

Definition sampleMeme (fs : Z) (armed : bool) : Meme :=
  {| src := "u1"; alt := "failed to load image"; topText := "HELLO";
     bottomText := "WORLD"; fontSize := fs; toggleVisibility := armed;
     hoverListeners := true |}.

(** A page 1000px wide, hover-capable, with the given cards. *)
Definition samplePage (grid : list Meme) : Page :=
  setMemeGrid grid (initialPage 1000 true).

(** ** Placeholders of the form's inputs *)

(** How a call ends: it returns, or it throws the [TypeError] of setting a
    property of [undefined]; either way with the state reached so far. *)
Inductive Completion (A : Type) : Type :=
  | Returned (a : A)
  | ThrewTypeError (a : A).

Arguments Returned {A} a.
Arguments ThrewTypeError {A} a.

(** [inputList[i].placeholder = text], the list of [input] elements being
    given by their placeholders in document order: [inputList[i]] is
    [undefined] from the length of the list on. *)
Definition setPlaceholder (i : nat) (text : string) (inputList : list string)
    : Completion (list string) :=
  match inputList !! i with
  | Some _ => Returned (<[i := text]> inputList)
  | None => ThrewTypeError inputList
  end.

(** [screenWidth580Test]: short placeholders for the top and bottom text
    inputs when the screen is at most 580px wide, long ones otherwise. *)
Definition screenWidth580Test (matches : bool) (inputList : list string)
    : Completion (list string) :=
  if matches then
    match setPlaceholder 1 "(Optional) Top Text" inputList with
    | Returned inputList' =>
        setPlaceholder 2 "(Optional) Bottom Text" inputList'
    | ThrewTypeError inputList' => ThrewTypeError inputList'
    end
  else
    match setPlaceholder 1
            "(Optional) What text will go at the top of your meme?"
            inputList with
    | Returned inputList' =>
        setPlaceholder 2
          "(Optional) What text will go at the bottom of your meme?"
          inputList'
    | ThrewTypeError inputList' => ThrewTypeError inputList'
    end.

(** The two placeholders a call asks for. *)
Definition topPlaceholder (matches : bool) : string :=
  if matches then "(Optional) Top Text"
  else "(Optional) What text will go at the top of your meme?".

Definition bottomPlaceholder (matches : bool) : string :=
  if matches then "(Optional) Bottom Text"
  else "(Optional) What text will go at the bottom of your meme?".

(** ** Predicates on cards and events *)

Definition isLowerCase (c : ascii) : bool :=
  let n := N_of_ascii c in ((97 <=? n) && (n <=? 122))%N.

Fixpoint noLowerCase (s : string) : bool :=
  match s with
  | EmptyString => true
  | String c s' => negb (isLowerCase c) && noLowerCase s'
  end.

(** Both caption lines are their own upper-case form. *)
Definition upperCaseCaptions (m : Meme) : Prop :=
  toUpperCase (topText m) = topText m
  ∧ toUpperCase (bottomText m) = bottomText m.

(** A submit that creates its card at 40px or less; any other event. *)
Definition submitWithin40 (ev : Event) : bool :=
  match ev with
  | Submit cssFontSize => cssFontSize <=? 40
  | _ => true
  end.

(** * Properties *)

(** ** Record updates *)

Lemma setFontSize_setFontSize n k m :
  setFontSize n (setFontSize k m) = setFontSize n m.
Proof. reflexivity. Qed.

Lemma setFontSize_fontSize m : setFontSize (fontSize m) m = m.
Proof. by destruct m. Qed.

Lemma ownCurtainVisible_toggle m : ownCurtainVisible m = toggleVisibility m.
Proof. unfold ownCurtainVisible, curtainVisibility. by destruct (toggleVisibility m). Qed.

(** ** The shrink pass *)

Section FitLemmas.

Variable L : Layout.

Lemma helper_fuel_mono n :
  ∀ n' m old r,
    shrinkTextToFitHelper L n m old = Some r -> (n ≤ n')%nat ->
    shrinkTextToFitHelper L n' m old = Some r.
Proof.
  induction n as [|n IH]; intros n' m old r H Hle; [discriminate|].
  destruct n' as [|n']; [lia|]. simpl in *.
  destruct (textFits L m); [done|]. apply IH; [done|lia].
Qed.

Lemma shrink_fuel_mono n n' m r :
  shrinkTextToFit L n m = Some r -> (n ≤ n')%nat ->
  shrinkTextToFit L n' m = Some r.
Proof. apply helper_fuel_mono. Qed.

Lemma grow_fuel_mono n :
  ∀ n' m r,
    growTextToFit L n m = Some r -> (n ≤ n')%nat ->
    growTextToFit L n' m = Some r.
Proof.
  induction n as [|n IH]; intros n' m r H Hle; [discriminate|].
  destruct n' as [|n']; [lia|]. simpl in *.
  destruct (40 <=? fontSize m); [done|].
  destruct (negb (textFits L m)).
  - eapply shrink_fuel_mono; [done|lia].
  - apply IH; [done|lia].
Qed.

(** A helper that returns has found a size at which the caption fits. *)
Lemma helper_fits n :
  ∀ m old r, shrinkTextToFitHelper L n m old = Some r -> textFits L r = true.
Proof.
  induction n as [|n IH]; intros m old r H; [discriminate|]. simpl in H.
  destruct (textFits L m) eqn:Hfit; [congruence|]. by eapply IH.
Qed.

(** It returns the container untouched, or with a font size below the one it
    was started from; nothing but the font size changes. *)
Lemma helper_result n :
  ∀ m old r,
    shrinkTextToFitHelper L n m old = Some r ->
    r = m ∨ (fontSize r < old ∧ r = setFontSize (fontSize r) m).
Proof.
  induction n as [|n IH]; intros m old r H; [discriminate|]. simpl in H.
  destruct (textFits L m) eqn:Hfit; [left; congruence|]. right.
  destruct (IH _ _ _ H) as [->|[Hlt Hr]].
  - simpl. split; [lia|reflexivity].
  - split; [lia|]. rewrite Hr at 1. reflexivity.
Qed.

Lemma shrink_fontSize_le n m r :
  shrinkTextToFit L n m = Some r -> fontSize r ≤ fontSize m.
Proof.
  intros H. destruct (helper_result _ _ _ _ H) as [->|[Hlt _]]; lia.
Qed.

Lemma shrink_frame n m r :
  shrinkTextToFit L n m = Some r -> r = setFontSize (fontSize r) m.
Proof.
  intros H. destruct (helper_result _ _ _ _ H) as [->|[_ Hr]]; [|done].
  by rewrite setFontSize_fontSize.
Qed.

(** With a fitting size [k] at or below the start, [old - k + 1] calls are
    enough. *)
Lemma helper_terminates n :
  ∀ m0 old k,
    k ≤ old -> (Z.to_nat (old - k) ≤ n)%nat -> fitsAt L m0 k = true ->
    ∃ r, shrinkTextToFitHelper L (S n) (setFontSize old m0) old = Some r.
Proof.
  induction n as [|n IH]; intros m0 old k Hle Hn Hk; simpl.
  - assert (old = k) as -> by lia. unfold fitsAt in Hk. rewrite Hk. eauto.
  - destruct (textFits L (setFontSize old m0)) eqn:Hfit; [eauto|].
    assert (k ≠ old) by (intros ->; unfold fitsAt in Hk; congruence).
    rewrite setFontSize_setFontSize.
    apply (IH m0 (old - 1) k); [lia|lia|done].
Qed.

(** With no fitting size at or below the start, no number of calls is
    enough. *)
Lemma helper_diverges n :
  ∀ m0 old,
    (∀ k, k ≤ old -> fitsAt L m0 k = false) ->
    shrinkTextToFitHelper L n (setFontSize old m0) old = None.
Proof.
  induction n as [|n IH]; intros m0 old Hno; [done|]. simpl.
  pose proof (Hno old ltac:(lia)) as H0. unfold fitsAt in H0. rewrite H0.
  rewrite setFontSize_setFontSize. apply IH. intros k Hk. apply Hno. lia.
Qed.

(** The size the helper stops at: the first fitting one on the way down. *)
Lemma helper_stops_at n :
  ∀ m0 old k,
    k ≤ old -> (Z.to_nat (old - k) ≤ n)%nat -> fitsAt L m0 k = true ->
    (∀ j, k < j ≤ old -> fitsAt L m0 j = false) ->
    shrinkTextToFitHelper L (S n) (setFontSize old m0) old
    = Some (setFontSize k m0).
Proof.
  induction n as [|n IH]; intros m0 old k Hle Hn Hk Hno; simpl.
  - assert (old = k) as -> by lia. unfold fitsAt in Hk. by rewrite Hk.
  - destruct (Z.eq_dec k old) as [->|Hne].
    + unfold fitsAt in Hk. by rewrite Hk.
    + pose proof (Hno old ltac:(lia)) as H0. unfold fitsAt in H0. rewrite H0.
      rewrite setFontSize_setFontSize.
      apply (IH m0 (old - 1) k); [lia|lia|done|]. intros j Hj. apply Hno. lia.
Qed.

Lemma shrink_stops_at n m k :
  k ≤ fontSize m -> (Z.to_nat (fontSize m - k) < n)%nat ->
  fitsAt L m k = true ->
  (∀ j, k < j ≤ fontSize m -> fitsAt L m j = false) ->
  shrinkTextToFit L n m = Some (setFontSize k m).
Proof.
  intros Hle Hn Hk Hno. destruct n as [|n]; [lia|]. unfold shrinkTextToFit.
  rewrite <- (setFontSize_fontSize m) at 1.
  apply helper_stops_at; [done|lia|done|done].
Qed.

(** ** The grow pass *)

Lemma grow_postcondition n :
  ∀ m r,
    growTextToFit L n m = Some r -> textFits L r = true ∨ 40 ≤ fontSize r.
Proof.
  induction n as [|n IH]; intros m r H; [discriminate|]. simpl in H.
  destruct (40 <=? fontSize m) eqn:Hmax.
  - right. assert (r = m) as -> by congruence. lia.
  - destruct (negb (textFits L m)).
    + left. by eapply helper_fits.
    + by eapply IH.
Qed.

Lemma grow_frame n :
  ∀ m r, growTextToFit L n m = Some r -> r = setFontSize (fontSize r) m.
Proof.
  induction n as [|n IH]; intros m r H; [discriminate|]. simpl in H.
  destruct (40 <=? fontSize m).
  - assert (r = m) as -> by congruence. by rewrite setFontSize_fontSize.
  - destruct (negb (textFits L m)).
    + by eapply shrink_frame.
    + rewrite (IH _ _ H) at 1. reflexivity.
Qed.

Lemma grow_fontSize_max n :
  ∀ m r,
    growTextToFit L n m = Some r -> fontSize r ≤ Z.max (fontSize m) 40.
Proof.
  induction n as [|n IH]; intros m r H; [discriminate|]. simpl in H.
  destruct (40 <=? fontSize m) eqn:Hmax.
  - assert (r = m) as -> by congruence. lia.
  - destruct (negb (textFits L m)).
    + apply shrink_fontSize_le in H. lia.
    + apply IH in H. simpl in H. lia.
Qed.

(** Growth through sizes that all fit ends at 40px. *)
Lemma grow_reaches_max n :
  ∀ m0 c,
    c ≤ 40 -> (Z.to_nat (40 - c) ≤ n)%nat ->
    (∀ j, c ≤ j < 40 -> fitsAt L m0 j = true) ->
    growTextToFit L (S n) (setFontSize c m0) = Some (setFontSize 40 m0).
Proof.
  induction n as [|n IH]; intros m0 c Hle Hn Hall.
  - assert (c = 40) as -> by lia. reflexivity.
  - cbn [growTextToFit]. cbn [fontSize setFontSize].
    destruct (40 <=? c) eqn:Hmax.
    + assert (c = 40) as -> by lia. reflexivity.
    + pose proof (Hall c ltac:(lia)) as Hc. unfold fitsAt in Hc.
      rewrite Hc. cbn [negb].
      change (setFontSize (c + 1) (setFontSize c m0))
        with (setFontSize (c + 1) m0).
      apply IH; [lia|lia|]. intros j Hj. apply Hall. lia.
Qed.

(** Growth that meets a first non-fitting size [s] backtracks to [s - 1]. *)
Lemma grow_backtracks n :
  ∀ m0 c s,
    c < s -> s < 40 -> (Z.to_nat (s - c) ≤ n)%nat ->
    (∀ j, c ≤ j < s -> fitsAt L m0 j = true) ->
    fitsAt L m0 s = false ->
    growTextToFit L (3 + n) (setFontSize c m0) = Some (setFontSize (s - 1) m0).
Proof.
  induction n as [|n IH]; intros m0 c s Hlt Hs Hn Hall Hfail; [lia|].
  change (3 + S n)%nat with (S (3 + n)).
  cbn [growTextToFit]. cbn [fontSize setFontSize].
  destruct (40 <=? c) eqn:Hmax; [lia|].
  pose proof (Hall c ltac:(lia)) as Hc. unfold fitsAt in Hc.
  rewrite Hc. cbn [negb].
  change (setFontSize (c + 1) (setFontSize c m0))
    with (setFontSize (c + 1) m0).
  destruct (Z.eq_dec (c + 1) s) as [<-|Hne].
  - change (3 + n)%nat with (S (S (S n))).
    cbn [growTextToFit]. cbn [fontSize setFontSize].
    destruct (40 <=? c + 1) eqn:Hmax'; [lia|].
    unfold fitsAt in Hfail. rewrite Hfail. cbn [negb].
    unfold shrinkTextToFit. cbn [fontSize setFontSize].
    eapply helper_fuel_mono with (n := 2%nat); [|lia].
    replace (c + 1 - 1) with c by lia.
    apply (helper_stops_at 1 m0 (c + 1) c); [lia|lia|done|].
    intros j Hj. assert (j = c + 1) as -> by lia. done.
  - apply IH; [lia|lia|lia| |done]. intros j Hj. apply Hall. lia.
Qed.

End FitLemmas.

(** ** Counting visible curtains *)

Lemma armedCount_cons m g :
  armedCount (m :: g)
  = ((if ownCurtainVisible m then 1 else 0) + armedCount g)%nat.
Proof.
  unfold armedCount. rewrite filter_cons.
  destruct (decide (ownCurtainVisible m = true)) as [->|H]; [done|].
  by destruct (ownCurtainVisible m).
Qed.

Lemma armedCount_app g1 g2 :
  armedCount (g1 ++ g2) = (armedCount g1 + armedCount g2)%nat.
Proof. unfold armedCount. by rewrite filter_app, length_app. Qed.

Lemma armedCount_zero g : armedCount g = 0%nat ↔ noneArmed g.
Proof.
  unfold noneArmed. induction g as [|m g IH].
  - split; [constructor|done].
  - rewrite armedCount_cons, Forall_cons, <- IH.
    destruct (ownCurtainVisible m); split; intros; try lia; naive_solver.
Qed.

Lemma armedCount_le1 g : (armedCount g ≤ 1)%nat ↔ atMostOneArmed g.
Proof.
  unfold atMostOneArmed. induction g as [|m g IH].
  - split; [|unfold armedCount; simpl; lia]. intros _ i j mi mj Hi. by destruct i.
  - rewrite armedCount_cons. split.
    + intros Hc i j mi mj Hi Hj Ai Aj.
      destruct i as [|i], j as [|j]; simpl in *; simplify_eq; try done.
      * rewrite Ai in Hc. assert (armedCount g = 0%nat) as Hz by lia.
        apply armedCount_zero in Hz. unfold noneArmed in Hz.
        rewrite Forall_lookup in Hz. specialize (Hz _ _ Hj). congruence.
      * rewrite Aj in Hc. assert (armedCount g = 0%nat) as Hz by lia.
        apply armedCount_zero in Hz. unfold noneArmed in Hz.
        rewrite Forall_lookup in Hz. specialize (Hz _ _ Hi). congruence.
      * f_equal. destruct (ownCurtainVisible m).
        -- assert (armedCount g = 0%nat) as Hz by lia.
           apply armedCount_zero in Hz. unfold noneArmed in Hz.
           rewrite Forall_lookup in Hz. specialize (Hz _ _ Hi). congruence.
        -- simpl in Hc. destruct IH as [IH _]. eapply IH; eauto.
    + intros Hu. destruct (ownCurtainVisible m) eqn:Am.
      * assert (armedCount g = 0%nat) as ->; [|lia].
        apply armedCount_zero. unfold noneArmed. rewrite Forall_lookup.
        intros j mj Hj. destruct (ownCurtainVisible mj) eqn:Aj; [|done].
        specialize (Hu 0%nat (S j) m mj eq_refl Hj Am Aj). lia.
      * simpl. destruct IH as [_ IH]. apply IH. intros i j mi mj Hi Hj Ai Aj.
        specialize (Hu (S i) (S j) mi mj Hi Hj Ai Aj). lia.
Qed.

(** ** The curtain operations *)

Lemma removeCurtain_cons m g :
  removeCurtain (m :: g)
  = if toggleVisibility m then setToggleVisibility false m :: g
    else m :: removeCurtain g.
Proof.
  unfold removeCurtain, querySelectorCurtain. cbn [list_find].
  destruct (decide (toggleVisibility m = true)) as [->|H]; [done|].
  destruct (toggleVisibility m); [done|].
  destruct (list_find _ g) as [[i x]|]; done.
Qed.

Lemma removeCurtain_length g : length (removeCurtain g) = length g.
Proof.
  unfold removeCurtain. destruct (querySelectorCurtain g); [|done].
  apply length_alter.
Qed.

(** With at most one curtain visible, [removeCurtain] leaves none. *)
Lemma removeCurtain_count g :
  (armedCount g ≤ 1)%nat -> armedCount (removeCurtain g) = 0%nat.
Proof.
  induction g as [|m g IH]; [done|]. rewrite removeCurtain_cons.
  rewrite armedCount_cons, ownCurtainVisible_toggle.
  destruct (toggleVisibility m) eqn:Am; intros Hc.
  - rewrite armedCount_cons. simpl. lia.
  - rewrite armedCount_cons, ownCurtainVisible_toggle, Am. simpl.
    apply IH. simpl in Hc. lia.
Qed.

(** It changes the font size, texts and image of no meme. *)
Lemma removeCurtain_lookup g i m :
  g !! i = Some m ->
  ∃ b, removeCurtain g !! i = Some (setToggleVisibility b m)
       ∧ (toggleVisibility m = false -> b = false).
Proof.
  revert i. induction g as [|x g IH]; intros i Hi; [done|].
  rewrite removeCurtain_cons. destruct (toggleVisibility x) eqn:Ax.
  - destruct i as [|i]; simpl in *.
    + simplify_eq. exists false. done.
    + exists (toggleVisibility m). split; [|done].
      rewrite Hi. f_equal. by destruct m.
  - destruct i as [|i]; simpl in *.
    + simplify_eq. exists false. split; [|done]. f_equal.
      destruct m; simpl in *; by subst.
    + by apply IH.
Qed.

Lemma addCurtain_count i g :
  armedCount g = 0%nat -> (armedCount (addCurtain i g) ≤ 1)%nat.
Proof.
  unfold addCurtain. revert i. induction g as [|m g IH]; intros i.
  { intros _. destruct i; unfold armedCount; simpl; lia. }
  rewrite armedCount_cons. intros Hc.
  destruct (ownCurtainVisible m) eqn:Am; [lia|].
  change (armedCount g = 0%nat) in Hc.
  destruct i as [|i]; cbn [alter list_alter]; rewrite armedCount_cons.
  - rewrite Hc. by destruct (ownCurtainVisible _); cbn; lia.
  - rewrite Am. apply (IH i Hc).
Qed.

Lemma deleteMeme_count i g : (armedCount (deleteMeme i g) ≤ armedCount g)%nat.
Proof.
  unfold deleteMeme. revert i. induction g as [|m g IH]; intros i.
  - by destruct i.
  - destruct i as [|i]; simpl.
    + rewrite armedCount_cons. lia.
    + rewrite !armedCount_cons. specialize (IH i). lia.
Qed.

(** Deleting the one armed meme leaves none armed. *)
Lemma deleteMeme_armed_count i g m :
  g !! i = Some m -> ownCurtainVisible m = true ->
  (armedCount (deleteMeme i g) + 1 = armedCount g)%nat.
Proof.
  unfold deleteMeme. revert i. induction g as [|x g IH]; intros i Hi Am.
  - by destruct i.
  - destruct i as [|i]; simpl in *.
    + simplify_eq. rewrite armedCount_cons, Am. lia.
    + rewrite !armedCount_cons. specialize (IH i Hi Am). lia.
Qed.

(** A pass that touches only font sizes keeps the count. *)
Lemma armedCount_Forall2 g g' :
  Forall2 (λ m m', ownCurtainVisible m' = ownCurtainVisible m) g g' ->
  armedCount g' = armedCount g.
Proof.
  induction 1 as [|m m' g g' Hm _ IH]; [done|].
  by rewrite !armedCount_cons, Hm, IH.
Qed.

Lemma armedCount_insert g i m m' :
  g !! i = Some m -> ownCurtainVisible m' = ownCurtainVisible m ->
  armedCount (<[i := m']> g) = armedCount g.
Proof.
  revert i. induction g as [|x g IH]; intros i Hi Hm; [done|].
  destruct i as [|i]; simpl in *.
  - simplify_eq. by rewrite !armedCount_cons, Hm.
  - rewrite !armedCount_cons. by rewrite (IH i).
Qed.

Lemma setFontSize_ownCurtainVisible k m :
  ownCurtainVisible (setFontSize k m) = ownCurtainVisible m.
Proof. reflexivity. Qed.

(** ** Every handler keeps at most one curtain visible *)

Lemma memeClickHandler_count target p :
  (armedCount (memeGrid p) ≤ 1)%nat ->
  (armedCount (memeGrid (memeClickHandler target p)) ≤ 1)%nat.
Proof.
  intros Hc. unfold memeClickHandler.
  destruct (closestMeme (memeGrid p) target) as [[i m]|]; simpl.
  - destruct (ownCurtainVisible m); simpl.
    + pose proof (deleteMeme_count i (memeGrid p)). lia.
    + by apply addCurtain_count, removeCurtain_count.
  - rewrite removeCurtain_count; [lia|done].
Qed.

Lemma adjustMemeTextSize_count L fuel p p' :
  adjustMemeTextSize L fuel p = Some p' ->
  armedCount (memeGrid p') = armedCount (memeGrid p).
Proof.
  unfold adjustMemeTextSize. intros H.
  apply bind_Some in H as (g' & Hg & Hp). simplify_eq. simpl.
  destruct (innerWidth p <? oldWindowWidth p).
  - apply mapM_Some in Hg. apply armedCount_Forall2.
    eapply Forall2_impl; [exact Hg|]. intros m m' Hm. simpl in Hm.
    rewrite (shrink_frame _ _ _ _ Hm). reflexivity.
  - destruct (oldWindowWidth p <? innerWidth p); [|by simplify_eq].
    apply mapM_Some in Hg. apply armedCount_Forall2.
    eapply Forall2_impl; [exact Hg|]. intros m m' Hm. simpl in Hm.
    rewrite (grow_frame _ _ _ _ Hm). reflexivity.
Qed.

Lemma imageLoadHandler_count L fuel i p p' :
  imageLoadHandler L fuel i p = Some p' ->
  armedCount (memeGrid p') = armedCount (memeGrid p).
Proof.
  unfold imageLoadHandler. intros H.
  destruct (memeGrid p !! i) as [m|] eqn:Hi; [|by simplify_eq].
  apply bind_Some in H as (m' & Hm & Hp). simplify_eq. simpl.
  eapply armedCount_insert; [done|].
  rewrite (shrink_frame _ _ _ _ Hm). reflexivity.
Qed.

Lemma dispatch_count fuel ev p p' :
  dispatch fuel ev p = Some p' ->
  (armedCount (memeGrid p) ≤ 1)%nat -> (armedCount (memeGrid p') ≤ 1)%nat.
Proof.
  intros H Hc. destruct ev; simpl in H.
  - simplify_eq. simpl. rewrite armedCount_app. unfold armedCount at 2.
    simpl. lia.
  - simplify_eq. by apply memeClickHandler_count.
  - destruct (hoverWired _ _); simplify_eq; [|done]. simpl.
    by apply addCurtain_count, removeCurtain_count.
  - destruct (hoverWired _ _); simplify_eq; [|done]. simpl.
    rewrite removeCurtain_count; [lia|done].
  - apply adjustMemeTextSize_count in H. simpl in H. lia.
  - apply imageLoadHandler_count in H. lia.
  - by simplify_eq.
  - by simplify_eq.
Qed.

Lemma reaches_cons fuel ev p0 p1 evs p :
  dispatch fuel ev p0 = Some p1 -> reaches p1 evs p -> reaches p0 (ev :: evs) p.
Proof.
  intros Hd. induction 1 as [|evs ev' p p' fuel' _ IH Hd'].
  - apply (reaches_snoc p0 [] ev p0 p1 fuel); [constructor|done].
  - change (ev :: evs ++ [ev']) with ((ev :: evs) ++ [ev']).
    by eapply reaches_snoc.
Qed.

Lemma run_reaches fuel evs :
  ∀ p0 p, run fuel evs p0 = Some p -> reaches p0 evs p.
Proof.
  induction evs as [|ev evs IH]; intros p0 p H; simpl in H.
  - simplify_eq. constructor.
  - apply bind_Some in H as (p1 & Hd & Hr). eapply reaches_cons; eauto.
Qed.

Lemma reaches_count p0 evs p :
  reaches p0 evs p ->
  (armedCount (memeGrid p0) ≤ 1)%nat -> (armedCount (memeGrid p) ≤ 1)%nat.
Proof.
  induction 1 as [|evs ev p p' fuel _ IH Hd]; [done|].
  intros Hc. eapply dispatch_count; eauto.
Qed.

(** ** Fit passes: what holds when one returns *)

(** A shrink pass that returns leaves the caption no taller than the
    container.  A grow pass that returns leaves the caption no taller than
    the container, or the font size at 40px or more. *)
Lemma fit_pass_postcondition L fuel m r :
  (shrinkTextToFit L fuel m = Some r -> textFits L r = true)
  ∧ (growTextToFit L fuel m = Some r ->
     textFits L r = true ∨ 40 ≤ fontSize r).
Proof.
  split.
  - apply helper_fits.
  - apply grow_postcondition.
Qed.

(** C1.  The grow pass breaks the postcondition at its last step.  In a
    container 79px tall the caption fits at 39px (78px) and not at 40px
    (80px): the pass writes 40px and its next call returns at the test of the
    maximum, which comes before the measurement, so a caption that fitted
    before the pass overflows after it, at a font size that is the maximum
    and no minimum.  One px lower the same overshoot is undone: in a
    container 77px tall the pass goes from 38px to 39px, measures, and steps
    back to 38px.  A card entered at 40px with an overflowing caption is
    likewise returned as it is. *)
Theorem grow_from_39_ends_at_40 :
  growTextToFit (lineLayout 0 79) 2 (sampleMeme 39 false)
  = Some (sampleMeme 40 false)
  ∧ textFits (lineLayout 0 79) (sampleMeme 39 false) = true
  ∧ textFits (lineLayout 0 79) (sampleMeme 40 false) = false
  ∧ growTextToFit (lineLayout 0 77) 4 (sampleMeme 38 false)
    = Some (sampleMeme 38 false)
  ∧ textFits (lineLayout 0 77) (sampleMeme 39 false) = false
  ∧ growTextToFit (lineLayout 0 50) 1 (sampleMeme 40 false)
    = Some (sampleMeme 40 false)
  ∧ textFits (lineLayout 0 50) (sampleMeme 40 false) = false.
Proof. repeat split; reflexivity. Qed.

(** ** At most one curtain *)

(** C2.  Starting from a page on which no card is armed, after every handler
    of every sequence of events (submit, click, mouse-over, mouse-leave,
    resize, image load, typing, capability change) has returned, no two cards
    of the grid have a visible curtain. *)
Theorem at_most_one_armed_invariant p0 evs p :
  noneArmed (memeGrid p0) -> reaches p0 evs p -> atMostOneArmed (memeGrid p).
Proof.
  intros H0 Hr. apply armedCount_le1. eapply reaches_count; [exact Hr|].
  apply armedCount_zero in H0. lia.
Qed.

Lemma at_most_one_armed_invariant_witness :
  atMostOneArmed
    [ sampleMeme 40 false;
      {| src := "u2"; alt := "failed to load image"; topText := "";
         bottomText := ""; fontSize := 40; toggleVisibility := true;
         hoverListeners := true |} ].
Proof.
  apply (at_most_one_armed_invariant (initialPage 1000 true)
           [ TypeInputs "u1" "Hello" "World"; Submit 40;
             TypeInputs "u2" "" ""; Submit 40;
             Click (Some 0%nat); MouseOver 1%nat ]
           {| imageInput := ""; topTextInput := ""; bottomTextInput := "";
              memeGrid :=
                [ sampleMeme 40 false;
                  {| src := "u2"; alt := "failed to load image"; topText := "";
                     bottomText := ""; fontSize := 40;
                     toggleVisibility := true; hoverListeners := true |} ];
              innerWidth := 1000; oldWindowWidth := 1000; mqlHover := true |}).
  - constructor.
  - apply (run_reaches 0). reflexivity.
Defined.

(** ** The 40px ceiling *)

(** C3.  A card whose font size is at most 40px keeps a font size of at most
    40px through every sequence of grow passes, whatever the layout at each
    pass. *)
Theorem grow_never_exceeds_40 passes :
  ∀ m r, fontSize m ≤ 40 -> growPasses passes m = Some r -> fontSize r ≤ 40.
Proof.
  induction passes as [|[L fuel] rest IH]; intros m r Hm H; simpl in H.
  - by simplify_eq.
  - apply bind_Some in H as (m' & Hg & Hrest).
    apply (IH m'); [|done]. apply grow_fontSize_max in Hg. lia.
Qed.

Lemma grow_never_exceeds_40_witness :
  fontSize (sampleMeme 25 false) ≤ 40
  ∧ growPasses [ (lineLayout 0 60, 20%nat); (lineLayout 0 70, 20%nat);
                 (lineLayout 0 200, 20%nat) ] (sampleMeme 25 false)
    = Some (sampleMeme 40 false)
  ∧ fontSize (sampleMeme 40 false) ≤ 40.
Proof.
  assert (H25 : fontSize (sampleMeme 25 false) ≤ 40) by (simpl; lia).
  split; [exact H25|]. split; [reflexivity|].
  apply (grow_never_exceeds_40
           [ (lineLayout 0 60, 20%nat); (lineLayout 0 70, 20%nat);
             (lineLayout 0 200, 20%nat) ]
           (sampleMeme 25 false) (sampleMeme 40 false) H25).
  reflexivity.
Defined.

(** ** The steps of a grow pass *)

(** A grow pass entered below 40px with a caption that does not fit has grown
    nothing: it is the shrink pass from the size it was entered with. *)
Lemma grow_unfit_is_shrink L fuel m :
  fontSize m < 40 -> textFits L m = false ->
  growTextToFit L (S fuel) m = shrinkTextToFit L fuel m.
Proof.
  intros Hlt Hfit. simpl. destruct (40 <=? fontSize m) eqn:Hmax; [lia|].
  by rewrite Hfit.
Qed.

(** C4.  A grow pass started below 40px raises the font size one px at a time
    while the caption fits.  If it fits at every size up to 39px the pass
    ends at 40px.  If [s] is the first size at which it does not fit, the pass
    hands the container at [s] to the shrink pass, which takes exactly one
    step down: the pass ends at [s - 1], the last size at which the caption
    fit. *)
Theorem grow_pass_steps L m :
  fontSize m < 40 ->
  ((∀ j, fontSize m ≤ j < 40 -> fitsAt L m j = true) ->
   ∀ fuel, (Z.to_nat (40 - fontSize m) < fuel)%nat ->
     growTextToFit L fuel m = Some (setFontSize 40 m))
  ∧ (∀ s, fontSize m < s < 40 ->
       (∀ j, fontSize m ≤ j < s -> fitsAt L m j = true) ->
       fitsAt L m s = false ->
       ∀ fuel, (Z.to_nat (s - fontSize m) + 2 < fuel)%nat ->
         growTextToFit L fuel m = Some (setFontSize (s - 1) m)
         ∧ growTextToFit L (S fuel) (setFontSize s m)
           = shrinkTextToFit L fuel (setFontSize s m)
         ∧ shrinkTextToFit L fuel (setFontSize s m)
           = Some (setFontSize (s - 1) m)
         ∧ textFits L (setFontSize (s - 1) m) = true).
Proof.
  intros Hlt. split.
  - intros Hall fuel Hfuel. destruct fuel as [|fuel]; [lia|].
    rewrite <- (setFontSize_fontSize m) at 1.
    apply grow_reaches_max; [lia|lia|done].
  - intros s Hs Hall Hfail fuel Hfuel. split; [|split; [|split]].
    + apply grow_fuel_mono with (n := (3 + Z.to_nat (s - fontSize m))%nat);
        [|lia].
      pose proof (grow_backtracks L (Z.to_nat (s - fontSize m)) m
                    (fontSize m) s) as H.
      rewrite setFontSize_fontSize in H. apply H; [lia|lia|lia|done|done].
    + apply grow_unfit_is_shrink; [simpl; lia|done].
    + change (setFontSize (s - 1) m)
        with (setFontSize (s - 1) (setFontSize s m)).
      apply shrink_stops_at; simpl.
      * lia.
      * lia.
      * apply (Hall (s - 1)). lia.
      * intros j Hj. assert (j = s) as -> by lia. done.
    + apply (Hall (s - 1)). lia.
Qed.

Lemma grow_pass_steps_witness :
  growTextToFit (lineLayout 0 200) 20 (sampleMeme 25 false)
  = Some (sampleMeme 40 false)
  ∧ growTextToFit (lineLayout 0 61) 20 (sampleMeme 25 false)
    = Some (sampleMeme 30 false)
  ∧ shrinkTextToFit (lineLayout 0 61) 20 (sampleMeme 31 false)
    = Some (sampleMeme 30 false).
Proof.
  assert (H25 : fontSize (sampleMeme 25 false) < 40) by (simpl; lia).
  split; [|split].
  - apply (proj1 (grow_pass_steps (lineLayout 0 200) (sampleMeme 25 false) H25)).
    + intros j Hj. unfold fitsAt, textFits. simpl. lia.
    + simpl. lia.
  - apply (proj2 (grow_pass_steps (lineLayout 0 61) (sampleMeme 25 false) H25)
             31).
    + simpl. lia.
    + intros j Hj. unfold fitsAt, textFits. simpl in *. lia.
    + reflexivity.
    + simpl. lia.
  - apply (proj2 (grow_pass_steps (lineLayout 0 61) (sampleMeme 25 false) H25)
             31).
    + simpl. lia.
    + intros j Hj. unfold fitsAt, textFits. simpl in *. lia.
    + reflexivity.
    + simpl. lia.
Defined.

(** ** Termination of the shrink pass *)

(** C5.  If the caption fits at some font size at or below the one the shrink
    pass starts from, the pass returns (from some bound on, for every bound on
    the recursion) and the caption fits in the container it returns.  If it
    fits at no such size the pass returns for no bound: the loop has no floor
    of its own. *)
Theorem shrink_pass_termination L m :
  ((∃ k, k ≤ fontSize m ∧ fitsAt L m k = true) ->
   ∃ fuel r, (∀ fuel', (fuel ≤ fuel')%nat ->
                shrinkTextToFit L fuel' m = Some r)
             ∧ textFits L r = true)
  ∧ ((∀ k, k ≤ fontSize m -> fitsAt L m k = false) ->
     ∀ fuel, shrinkTextToFit L fuel m = None).
Proof.
  split.
  - intros (k & Hk & Hfit).
    destruct (helper_terminates L (Z.to_nat (fontSize m - k)) m (fontSize m) k)
      as [r Hr]; [done|lia|done|].
    rewrite setFontSize_fontSize in Hr.
    exists (S (Z.to_nat (fontSize m - k))), r. split.
    + intros fuel' Hle. by eapply shrink_fuel_mono.
    + by eapply helper_fits.
  - intros Hno fuel. unfold shrinkTextToFit.
    rewrite <- (setFontSize_fontSize m) at 1. by apply helper_diverges.
Qed.

Lemma shrink_pass_termination_witness :
  (∃ fuel r, (∀ fuel', (fuel ≤ fuel')%nat ->
                shrinkTextToFit (lineLayout 0 60) fuel' (sampleMeme 40 false)
                = Some r)
             ∧ textFits (lineLayout 0 60) r = true)
  ∧ (∀ fuel, shrinkTextToFit (lineLayout 10 15) fuel (sampleMeme 40 false)
             = None).
Proof.
  split.
  - apply (proj1 (shrink_pass_termination (lineLayout 0 60)
                    (sampleMeme 40 false))).
    exists 30. split; [simpl; lia|reflexivity].
  - apply (proj2 (shrink_pass_termination (lineLayout 10 15)
                    (sampleMeme 40 false))).
    intros k Hk. unfold fitsAt, textFits. simpl. lia.
Defined.

(** ** Deleting the armed card *)

(** C6.  With at most one card armed, a click on the armed card at position
    [c] deletes it: the grid is the old grid without position [c], one card
    shorter, the cards before [c] stay where they were and the cards after it
    move up by one, each as it was; no card is armed afterwards and nothing
    else on the page changes. *)
Theorem click_armed_card_deletes_it p c m :
  atMostOneArmed (memeGrid p) ->
  memeGrid p !! c = Some m ->
  ownCurtainVisible m = true ->
  memeClickHandler (Some c) p = setMemeGrid (delete c (memeGrid p)) p
  ∧ (length (memeGrid (memeClickHandler (Some c) p)) + 1
     = length (memeGrid p))%nat
  ∧ (∀ j, (j < c)%nat ->
       memeGrid (memeClickHandler (Some c) p) !! j = memeGrid p !! j)
  ∧ (∀ j, (c ≤ j)%nat ->
       memeGrid (memeClickHandler (Some c) p) !! j = memeGrid p !! S j)
  ∧ noneArmed (memeGrid (memeClickHandler (Some c) p)).
Proof.
  intros Hone Hc Am.
  assert (Heq : memeClickHandler (Some c) p
                = setMemeGrid (delete c (memeGrid p)) p).
  { unfold memeClickHandler, closestMeme. rewrite Hc, Am. reflexivity. }
  rewrite Heq. cbn [memeGrid setMemeGrid].
  split; [done|]. split; [|split; [|split]].
  - rewrite length_delete by eauto. apply lookup_lt_Some in Hc. lia.
  - intros j Hj. by apply list_lookup_delete_lt.
  - intros j Hj. by apply list_lookup_delete_ge.
  - apply armedCount_zero. apply armedCount_le1 in Hone.
    pose proof (deleteMeme_armed_count c (memeGrid p) m Hc Am) as Hd.
    unfold deleteMeme in Hd. lia.
Qed.

Lemma click_armed_card_deletes_it_witness :
  memeGrid
    (memeClickHandler (Some 1%nat)
       (setMemeGrid [ sampleMeme 40 false; sampleMeme 30 true;
                      sampleMeme 20 false ] (initialPage 1000 true)))
  = [ sampleMeme 40 false; sampleMeme 20 false ].
Proof.
  refine (f_equal memeGrid
            (proj1 (click_armed_card_deletes_it
                      (setMemeGrid [ sampleMeme 40 false; sampleMeme 30 true;
                                     sampleMeme 20 false ]
                         (initialPage 1000 true))
                      1%nat (sampleMeme 30 true) _ eq_refl eq_refl))).
  apply armedCount_le1. vm_compute. lia.
Defined.

(** ** A narrowing resize *)

Lemma mapM_shrink_fuel_mono L n n' g g' :
  mapM (shrinkTextToFit L n) g = Some g' -> (n ≤ n')%nat ->
  mapM (shrinkTextToFit L n') g = Some g'.
Proof.
  intros H Hle. apply mapM_Some. apply mapM_Some in H.
  eapply Forall2_impl; [exact H|]. intros m m' Hm. simpl in *.
  by eapply shrink_fuel_mono.
Qed.

(** On a finite grid the distances to a fitting size have a common bound. *)
Lemma fitting_sizes_bounded L g :
  Forall (λ m, ∃ k, k ≤ fontSize m ∧ fitsAt L m k = true) g ->
  ∃ B, Forall (λ m, ∃ k, k ≤ fontSize m ∧ fontSize m - k ≤ B
                         ∧ fitsAt L m k = true) g.
Proof.
  induction 1 as [|m g (k & Hk & Hfit) _ [B IH]].
  - exists 0. constructor.
  - exists (Z.max B (fontSize m - k)). constructor.
    + exists k. split; [done|]. split; [lia|done].
    + eapply Forall_impl; [exact IH|]. intros x (kx & Hkx & Hb & Hfx).
      exists kx. split; [done|]. split; [lia|done].
Qed.

Lemma mapM_shrink_returns L B g :
  Forall (λ m, ∃ k, k ≤ fontSize m ∧ fontSize m - k ≤ B
                    ∧ fitsAt L m k = true) g ->
  ∃ g', mapM (shrinkTextToFit L (S (Z.to_nat B))) g = Some g'.
Proof.
  intros Hall.
  destruct (mapM (shrinkTextToFit L (S (Z.to_nat B))) g) as [g'|] eqn:Hg;
    [eauto|].
  apply mapM_None in Hg. apply Exists_exists in Hg as (m & Hin & Hnone).
  rewrite Forall_forall in Hall. destruct (Hall m Hin) as (k & Hk & HB & Hfit).
  destruct (helper_terminates L (Z.to_nat B) m (fontSize m) k) as [r Hr];
    [done|lia|done|].
  rewrite setFontSize_fontSize in Hr. unfold shrinkTextToFit in Hnone.
  congruence.
Qed.

Lemma mapM_shrink_diverges L fuel g :
  Exists (λ m, ∀ k, k ≤ fontSize m -> fitsAt L m k = false) g ->
  mapM (shrinkTextToFit L fuel) g = None.
Proof.
  intros Hex. apply mapM_None. eapply Exists_impl; [exact Hex|].
  intros m Hno. simpl. unfold shrinkTextToFit.
  rewrite <- (setFontSize_fontSize m) at 1. by apply helper_diverges.
Qed.

(** The handler on a narrowing resize: a shrink pass over every card. *)
Lemma narrowing_resize_unfold L fuel w p :
  w < oldWindowWidth p ->
  dispatch fuel (Resize w L) p
  = (g' ← mapM (shrinkTextToFit L fuel) (memeGrid p);
     Some {| imageInput := imageInput p; topTextInput := topTextInput p;
             bottomTextInput := bottomTextInput p; memeGrid := g';
             innerWidth := w; oldWindowWidth := w; mqlHover := mqlHover p |}).
Proof.
  intros Hw. cbn [dispatch]. unfold adjustMemeTextSize.
  cbn [innerWidth oldWindowWidth memeGrid setInnerWidth imageInput
       topTextInput bottomTextInput mqlHover].
  destruct (w <? oldWindowWidth p) eqn:Hlt; [done|lia].
Qed.

Lemma narrowing_resize_diverges L fuel w p :
  w < oldWindowWidth p ->
  Exists (λ m, ∀ k, k ≤ fontSize m -> fitsAt L m k = false) (memeGrid p) ->
  dispatch fuel (Resize w L) p = None.
Proof.
  intros Hw Hex. rewrite narrowing_resize_unfold by done.
  by rewrite mapM_shrink_diverges.
Qed.

Lemma narrowing_resize_result L fuel w p p' :
  w < oldWindowWidth p ->
  dispatch fuel (Resize w L) p = Some p' ->
  Forall2 (λ m m', fontSize m' ≤ fontSize m
                   ∧ textFits L m' = true
                   ∧ m' = setFontSize (fontSize m') m)
    (memeGrid p) (memeGrid p')
  ∧ oldWindowWidth p' = w.
Proof.
  intros Hw H. rewrite narrowing_resize_unfold in H by done.
  apply bind_Some in H as (g' & Hg & Hp). simplify_eq. simpl.
  split; [|done].
  apply mapM_Some in Hg. eapply Forall2_impl; [exact Hg|].
  intros m m' Hm. simpl in Hm. split; [|split].
  - by eapply shrink_fontSize_le.
  - by eapply helper_fits.
  - by eapply shrink_frame.
Qed.

(** C7 (as amended).  When the window got narrower and the caption of every
    card fits at some font size at or below the card's own, the resize
    handler returns, from some bound on the recursion on for every bound,
    and has left every card with a font size at most the one it had, with
    its caption no taller than its container and with nothing but the font
    size changed; the new width is remembered.  When the caption of some
    card fits at no font size at or below the card's own, the handler
    returns for no bound: the script has no minimum font size.  Whenever
    the handler returns, the cards are as described. *)
Theorem narrowing_resize_shrinks L w p :
  w < oldWindowWidth p ->
  (Forall (λ m, ∃ k, k ≤ fontSize m ∧ fitsAt L m k = true) (memeGrid p) ->
   ∃ fuel p',
     (∀ fuel', (fuel ≤ fuel')%nat ->
        dispatch fuel' (Resize w L) p = Some p')
     ∧ Forall2 (λ m m', fontSize m' ≤ fontSize m
                        ∧ textFits L m' = true
                        ∧ m' = setFontSize (fontSize m') m)
         (memeGrid p) (memeGrid p')
     ∧ oldWindowWidth p' = w)
  ∧ (Exists (λ m, ∀ k, k ≤ fontSize m -> fitsAt L m k = false) (memeGrid p) ->
     ∀ fuel, dispatch fuel (Resize w L) p = None)
  ∧ (∀ fuel p',
       dispatch fuel (Resize w L) p = Some p' ->
       Forall2 (λ m m', fontSize m' ≤ fontSize m
                        ∧ textFits L m' = true
                        ∧ m' = setFontSize (fontSize m') m)
         (memeGrid p) (memeGrid p')
       ∧ oldWindowWidth p' = w).
Proof.
  intros Hw. split; [|split].
  - intros Hall. destruct (fitting_sizes_bounded _ _ Hall) as [B HB].
    destruct (mapM_shrink_returns _ _ _ HB) as [g' Hg].
    exists (S (Z.to_nat B)).
    eexists. split.
    + intros fuel' Hle. rewrite narrowing_resize_unfold by done.
      rewrite (mapM_shrink_fuel_mono _ _ _ _ _ Hg Hle). reflexivity.
    + apply (narrowing_resize_result L (S (Z.to_nat B)) w p); [done|].
      rewrite narrowing_resize_unfold by done. by rewrite Hg.
  - intros Hex fuel. by apply narrowing_resize_diverges.
  - intros fuel p'. by apply narrowing_resize_result.
Qed.

Lemma narrowing_resize_shrinks_witness :
  (∃ fuel p',
     (∀ fuel', (fuel ≤ fuel')%nat ->
        dispatch fuel' (Resize 800 (lineLayout 0 50))
          (samplePage [ sampleMeme 40 false; sampleMeme 20 true ])
        = Some p')
     ∧ Forall2 (λ m m', fontSize m' ≤ fontSize m
                        ∧ textFits (lineLayout 0 50) m' = true
                        ∧ m' = setFontSize (fontSize m') m)
         [ sampleMeme 40 false; sampleMeme 20 true ] (memeGrid p')
     ∧ oldWindowWidth p' = 800)
  ∧ (∀ fuel, dispatch fuel (Resize 800 (lineLayout 10 15))
               (samplePage [ sampleMeme 40 false; sampleMeme 20 true ])
             = None).
Proof.
  assert (Hw : 800 < oldWindowWidth
                       (samplePage [ sampleMeme 40 false; sampleMeme 20 true ]))
    by (simpl; lia).
  split.
  - apply (proj1 (narrowing_resize_shrinks (lineLayout 0 50) 800
                    (samplePage [ sampleMeme 40 false; sampleMeme 20 true ])
                    Hw)).
    apply Forall_cons. split; [exists 25; split; [simpl; lia|reflexivity]|].
    apply Forall_cons. split; [exists 20; split; [simpl; lia|reflexivity]|].
    apply Forall_nil. exact I.
  - apply (proj1 (proj2 (narrowing_resize_shrinks (lineLayout 10 15) 800
                           (samplePage [ sampleMeme 40 false;
                                         sampleMeme 20 true ]) Hw))).
    apply Exists_cons. left. intros k Hk. unfold fitsAt, textFits. simpl. lia.
Defined.

(** C7 as the spec states it fails.  Two cards whose caption lines carry
    10px of padding each, in containers 15px tall: the caption is at least
    20px tall at every font size.  On a resize from 1000px to 800px the
    shrink pass of the first card lowers the font size without end and the
    handler returns for no bound on the recursion, so there is no page after
    the event on which the cards fit or sit at a minimum. *)
Lemma narrowing_resize_never_returns :
  ¬ (∃ fuel p',
       dispatch fuel (Resize 800 (lineLayout 10 15))
         (samplePage [ sampleMeme 40 false; sampleMeme 20 false ])
       = Some p').
Proof.
  intros (fuel & p' & H).
  rewrite (narrowing_resize_diverges (lineLayout 10 15) fuel 800) in H.
  - discriminate H.
  - simpl. lia.
  - apply Exists_cons. left. intros k Hk. unfold fitsAt, textFits. simpl. lia.
Qed.

(** ** Submitting the form *)

(** C8.  With [u1], ["Hello"] and ["World"] in the three inputs, a submit
    appends exactly one card to the grid, with image [u1] and caption lines
    ["HELLO"] and ["WORLD"], and leaves the three inputs empty. *)
Theorem submit_hello_world cssFontSize u1 p :
  ∃ card,
    memeGrid (generateMeme cssFontSize (setInputs u1 "Hello" "World" p))
    = memeGrid p ++ [card]
    ∧ src card = u1
    ∧ topText card = "HELLO"%string
    ∧ bottomText card = "WORLD"%string
    ∧ imageInput (generateMeme cssFontSize (setInputs u1 "Hello" "World" p))
      = ""%string
    ∧ topTextInput (generateMeme cssFontSize (setInputs u1 "Hello" "World" p))
      = ""%string
    ∧ bottomTextInput
        (generateMeme cssFontSize (setInputs u1 "Hello" "World" p))
      = ""%string.
Proof. eexists. repeat split; reflexivity. Qed.

(** ** Leaving a card with the pointer *)

Lemma armedCount_lookup g i m :
  g !! i = Some m -> ownCurtainVisible m = true -> (1 ≤ armedCount g)%nat.
Proof.
  revert i. induction g as [|x g IH]; intros i Hi Am; [done|].
  rewrite armedCount_cons. destruct i as [|i]; simpl in Hi.
  - simplify_eq. rewrite Am. lia.
  - specialize (IH i Hi Am). lia.
Qed.

(** With at most one curtain visible, [removeCurtain] hides that one. *)
Lemma removeCurtain_armed g c mc :
  (armedCount g ≤ 1)%nat -> g !! c = Some mc -> ownCurtainVisible mc = true ->
  removeCurtain g = alter (setToggleVisibility false) c g.
Proof.
  revert c. induction g as [|x g IH]; intros c Hone Hc Am; [done|].
  rewrite removeCurtain_cons. rewrite armedCount_cons in Hone.
  rewrite ownCurtainVisible_toggle in Hone.
  destruct (toggleVisibility x) eqn:Ax.
  - destruct c as [|c]; [done|]. simpl in Hc.
    pose proof (armedCount_lookup g c mc Hc Am). lia.
  - destruct c as [|c]; simpl in Hc.
    + simplify_eq. rewrite ownCurtainVisible_toggle in Am. congruence.
    + cbn [alter list_alter]. f_equal. apply (IH c); [|done|done].
      simpl in Hone. exact Hone.
Qed.

(** C9.  With at most one card armed and the card [mc] at position [c] armed,
    a mouse-leave on any card [d] that carries the hover listeners, [d] being
    [c] or not, runs the leave handler, which hides the curtain of [c], leaves
    every other card as it was and leaves no card armed. *)
Theorem mouse_leave_lowers_any_curtain fuel p c d mc :
  atMostOneArmed (memeGrid p) ->
  memeGrid p !! c = Some mc ->
  ownCurtainVisible mc = true ->
  hoverWired (memeGrid p) d = true ->
  dispatch fuel (MouseLeave d) p
  = Some (setMemeGrid (alter (setToggleVisibility false) c (memeGrid p)) p)
  ∧ alter (setToggleVisibility false) c (memeGrid p) !! c
    = Some (setToggleVisibility false mc)
  ∧ (∀ j, j ≠ c ->
       alter (setToggleVisibility false) c (memeGrid p) !! j
       = memeGrid p !! j)
  ∧ noneArmed (alter (setToggleVisibility false) c (memeGrid p)).
Proof.
  intros Hone Hc Am Hd. apply armedCount_le1 in Hone.
  assert (Hrm := removeCurtain_armed _ _ _ Hone Hc Am).
  split; [|split; [|split]].
  - cbn [dispatch]. rewrite Hd. unfold mouseLeaveHandler. by rewrite Hrm.
  - by rewrite list_lookup_alter_eq, Hc.
  - intros j Hj. by apply list_lookup_alter_ne.
  - rewrite <- Hrm. apply armedCount_zero. by apply removeCurtain_count.
Qed.

Lemma mouse_leave_lowers_any_curtain_witness :
  dispatch 0 (MouseLeave 2)
    (setMemeGrid [ sampleMeme 40 false; sampleMeme 30 true;
                   sampleMeme 20 false ] (initialPage 1000 true))
  = Some (setMemeGrid [ sampleMeme 40 false; sampleMeme 30 false;
                        sampleMeme 20 false ] (initialPage 1000 true)).
Proof.
  refine (proj1 (mouse_leave_lowers_any_curtain 0
                   (setMemeGrid [ sampleMeme 40 false; sampleMeme 30 true;
                                  sampleMeme 20 false ]
                      (initialPage 1000 true))
                   1%nat 2%nat (sampleMeme 30 true) _ eq_refl eq_refl eq_refl)).
  apply armedCount_le1. vm_compute. lia.
Defined.

(** ** A grow pass at the maximum *)

(** C10.  A grow pass on a card whose font size is 40px or more returns at
    its first call with the card as it was, whatever the layout: the heights
    are not read, so this holds also when the caption is taller than the
    container. *)
Theorem grow_at_max_returns_unchanged L fuel m :
  40 ≤ fontSize m -> growTextToFit L (S fuel) m = Some m.
Proof.
  intros Hmax. simpl. destruct (40 <=? fontSize m) eqn:H; [done|lia].
Qed.

Lemma grow_at_max_returns_unchanged_witness :
  textFits (lineLayout 0 50) (sampleMeme 40 false) = false
  ∧ growTextToFit (lineLayout 0 50) 1 (sampleMeme 40 false)
    = Some (sampleMeme 40 false).
Proof.
  split; [reflexivity|].
  apply (grow_at_max_returns_unchanged (lineLayout 0 50) 0
           (sampleMeme 40 false)).
  simpl. lia.
Defined.


(** * Further properties of the script *)

(** ** The size a fit pass settles on *)

Section FitPassResults.

Variable L : Layout.

Lemma helper_returns_largest n :
  ∀ m0 old r,
    shrinkTextToFitHelper L n (setFontSize old m0) old = Some r ->
    ∃ k, k ≤ old ∧ r = setFontSize k m0 ∧ fitsAt L m0 k = true
         ∧ ∀ j, k < j ≤ old -> fitsAt L m0 j = false.
Proof.
  induction n as [|n IH]; intros m0 old r H; [discriminate|].
  cbn [shrinkTextToFitHelper] in H.
  destruct (textFits L (setFontSize old m0)) eqn:Hfit.
  - exists old. simplify_eq. repeat split; [lia|done|]. intros j Hj. lia.
  - change (setFontSize (old - 1) (setFontSize old m0))
      with (setFontSize (old - 1) m0) in H.
    destruct (IH _ _ _ H) as (k & Hk & Hr & Hfk & Hno).
    exists k. repeat split; [lia|done|done|]. intros j Hj.
    destruct (Z.eq_dec j old) as [->|Hne]; [done|]. apply Hno. lia.
Qed.

Lemma shrink_result_largest fuel m r :
  shrinkTextToFit L fuel m = Some r ->
  fontSize r ≤ fontSize m
  ∧ r = setFontSize (fontSize r) m
  ∧ textFits L r = true
  ∧ ∀ j, fontSize r < j ≤ fontSize m -> fitsAt L m j = false.
Proof.
  unfold shrinkTextToFit. intros H.
  rewrite <- (setFontSize_fontSize m) in H at 1.
  destruct (helper_returns_largest _ _ _ _ H) as (k & Hk & -> & Hfk & Hno).
  cbn [fontSize setFontSize]. repeat split; done.
Qed.

(** X1.  The card a shrink pass returns differs from the one it was given in
    the font size only; its size is the largest one at or below the starting
    size at which the caption fits: the caption fits at it and at no size
    between it and the start. *)
Theorem shrink_returns_largest_fit fuel m r :
  shrinkTextToFit L fuel m = Some r ->
  fontSize r ≤ fontSize m
  ∧ r = setFontSize (fontSize r) m
  ∧ textFits L r = true
  ∧ ∀ j, fontSize r < j ≤ fontSize m -> fitsAt L m j = false.
Proof. apply shrink_result_largest. Qed.

(** X2.  A shrink pass run again on the card it returned changes nothing, and
    returns at its first call. *)
Theorem shrink_twice_is_shrink_once fuel fuel' m r :
  shrinkTextToFit L fuel m = Some r ->
  shrinkTextToFit L (S fuel') r = Some r.
Proof.
  intros H. apply helper_fits in H. unfold shrinkTextToFit. simpl.
  by rewrite H.
Qed.

Lemma grow_from_fit n :
  ∀ m0 c,
    fitsAt L m0 c = true -> (Z.to_nat (40 - c) ≤ n)%nat ->
    ∃ k, c ≤ k ∧ growTextToFit L (3 + n) (setFontSize c m0)
                 = Some (setFontSize k m0).
Proof.
  induction n as [|n IH]; intros m0 c Hc Hn.
  - exists c. split; [lia|]. change (3 + 0)%nat with 3%nat.
    cbn [growTextToFit]. cbn [fontSize setFontSize].
    destruct (40 <=? c) eqn:Hmax; [done|lia].
  - change (3 + S n)%nat with (S (3 + n)).
    cbn [growTextToFit]. cbn [fontSize setFontSize].
    destruct (40 <=? c) eqn:Hmax; [exists c; split; [lia|done]|].
    pose proof Hc as Hc'. unfold fitsAt in Hc'. rewrite Hc'. cbn [negb].
    change (setFontSize (c + 1) (setFontSize c m0))
      with (setFontSize (c + 1) m0).
    destruct (fitsAt L m0 (c + 1)) eqn:Hnext.
    + destruct (IH m0 (c + 1) Hnext ltac:(lia)) as (k & Hk & Hg).
      exists k. split; [lia|done].
    + change (3 + n)%nat with (S (S (S n))).
      cbn [growTextToFit]. cbn [fontSize setFontSize].
      destruct (40 <=? c + 1) eqn:Hmax'.
      * exists (c + 1). split; [lia|done].
      * exists c. split; [lia|]. unfold fitsAt in Hnext. rewrite Hnext.
        cbn [negb]. unfold shrinkTextToFit.
        cbn [shrinkTextToFitHelper fontSize setFontSize]. rewrite Hnext.
        change (setFontSize (c + 1 - 1) (setFontSize (c + 1) m0))
          with (setFontSize (c + 1 - 1) m0).
        replace (c + 1 - 1) with c by lia. by rewrite Hc'.
Qed.

(** X3.  A grow pass on a card whose caption fits always returns, within
    [40 - fontSize + 3] calls whatever the layout does at other sizes, and
    with a font size at least the one it started from. *)
Theorem grow_returns_when_caption_fits fuel m :
  textFits L m = true ->
  (Z.to_nat (40 - fontSize m) + 3 ≤ fuel)%nat ->
  ∃ r, growTextToFit L fuel m = Some r ∧ fontSize m ≤ fontSize r.
Proof.
  intros Hfit Hfuel.
  destruct (grow_from_fit (Z.to_nat (40 - fontSize m)) m (fontSize m))
    as (k & Hk & Hg).
  - unfold fitsAt. by rewrite setFontSize_fontSize.
  - lia.
  - rewrite setFontSize_fontSize in Hg. exists (setFontSize k m).
    split; [|done]. eapply grow_fuel_mono; [exact Hg|lia].
Qed.

Lemma grow_result_shape n :
  ∀ m r,
    growTextToFit L n m = Some r ->
    40 ≤ fontSize r
    ∨ (textFits L r = true ∧ fontSize r + 1 < 40
       ∧ fitsAt L r (fontSize r + 1) = false).
Proof.
  induction n as [|n IH]; intros m r H; [discriminate|]. simpl in H.
  destruct (40 <=? fontSize m) eqn:Hmax.
  - left. assert (r = m) as -> by congruence. lia.
  - destruct (textFits L m) eqn:Hfit; cbn [negb] in H.
    + by eapply IH.
    + right.
      destruct (shrink_result_largest _ _ _ H) as (Hle & Hr & Hf & Hno).
      assert (fontSize r ≠ fontSize m) as Hne.
      { intros Heq. rewrite Heq, setFontSize_fontSize in Hr. congruence. }
      split; [done|]. split; [lia|].
      rewrite Hr. cbn [fontSize setFontSize]. apply Hno. lia.
Qed.

(** X4.  A grow pass run again, under the same layout, on the card it
    returned gives that card back: the size it settles on is either 40px or
    more, or a size at which the caption fits while one px more does not. *)
Theorem grow_twice_is_grow_once fuel fuel' m r :
  growTextToFit L fuel m = Some r ->
  (4 ≤ fuel')%nat ->
  growTextToFit L fuel' r = Some r
  ∧ (40 ≤ fontSize r
     ∨ (textFits L r = true ∧ fitsAt L r (fontSize r + 1) = false)).
Proof.
  intros H Hfuel. destruct (grow_result_shape _ _ _ H) as [Hmax|(Hf & Hlt & Hn)].
  - split; [|by left]. destruct fuel' as [|n]; [lia|]. simpl.
    destruct (40 <=? fontSize r) eqn:E; [done|lia].
  - split; [|by right]. apply grow_fuel_mono with (n := 4%nat); [|done].
    cbn [growTextToFit]. destruct (40 <=? fontSize r) eqn:E; [lia|].
    rewrite Hf. cbn [negb fontSize setFontSize].
    destruct (40 <=? fontSize r + 1) eqn:E'; [lia|].
    unfold fitsAt in Hn. rewrite Hn. cbn [negb]. unfold shrinkTextToFit.
    cbn [shrinkTextToFitHelper fontSize setFontSize]. rewrite Hn.
    change (setFontSize (fontSize r + 1 - 1) (setFontSize (fontSize r + 1) r))
      with (setFontSize (fontSize r + 1 - 1) r).
    replace (fontSize r + 1 - 1) with (fontSize r) by lia.
    rewrite setFontSize_fontSize. by rewrite Hf.
Qed.

(** X5.  Neither pass touches anything but the font size: the image, the two
    caption lines, the curtain and the hover listeners of the returned card
    are those of the card given, and a grow pass never returns a font size
    above both 40px and the starting size. *)
Theorem fit_passes_change_font_size_only fuel m r :
  shrinkTextToFit L fuel m = Some r ∨ growTextToFit L fuel m = Some r ->
  r = setFontSize (fontSize r) m ∧ fontSize r ≤ Z.max (fontSize m) 40.
Proof.
  intros [H|H].
  - split; [by eapply shrink_frame|]. apply shrink_fontSize_le in H. lia.
  - split; [by eapply grow_frame|]. by eapply grow_fontSize_max.
Qed.

End FitPassResults.

(** ** Resize and image load, card by card *)

Lemma grow_fitting_not_below L fuel m r :
  growTextToFit L fuel m = Some r -> textFits L m = true ->
  fontSize m ≤ fontSize r.
Proof.
  intros H Hfit.
  destruct (grow_from_fit L (Z.to_nat (40 - fontSize m)) m (fontSize m))
    as (k & Hk & Hg).
  - unfold fitsAt. by rewrite setFontSize_fontSize.
  - lia.
  - rewrite setFontSize_fontSize in Hg.
    pose proof (grow_fuel_mono L _ (fuel + (3 + Z.to_nat (40 - fontSize m)))
                  _ _ H ltac:(lia)) as H1.
    pose proof (grow_fuel_mono L _ (fuel + (3 + Z.to_nat (40 - fontSize m)))
                  _ _ Hg ltac:(lia)) as H2.
    rewrite H1 in H2. simplify_eq. done.
Qed.

(** X6.  A resize event that leaves the width as remembered runs no pass: the
    handler returns for every bound and every layout, and no card
    changes. *)
Theorem resize_same_width_changes_nothing fuel L p :
  dispatch fuel (Resize (oldWindowWidth p) L) p
  = Some (setInnerWidth (oldWindowWidth p) p).
Proof.
  cbn [dispatch]. unfold adjustMemeTextSize.
  cbn [innerWidth oldWindowWidth memeGrid setInnerWidth].
  rewrite Z.ltb_irrefl. reflexivity.
Qed.

(** X7.  When the window got wider, the resize handler, once it has returned,
    has left every card with its caption fitting or its font size at 40px or
    more, with a font size no larger than the larger of 40px and its old one
    and, if its caption fitted before the pass, no smaller than its old one;
    nothing but font sizes changed and the new width is remembered. *)
Theorem widening_resize_grows L fuel w p p' :
  oldWindowWidth p < w ->
  dispatch fuel (Resize w L) p = Some p' ->
  Forall2 (λ m m', (textFits L m' = true ∨ 40 ≤ fontSize m')
                   ∧ fontSize m' ≤ Z.max (fontSize m) 40
                   ∧ (textFits L m = true -> fontSize m ≤ fontSize m')
                   ∧ m' = setFontSize (fontSize m') m)
    (memeGrid p) (memeGrid p')
  ∧ oldWindowWidth p' = w ∧ innerWidth p' = w.
Proof.
  intros Hw H. cbn [dispatch] in H. unfold adjustMemeTextSize in H.
  cbn [innerWidth oldWindowWidth memeGrid setInnerWidth] in H.
  apply bind_Some in H as (g' & Hg & Hp). simplify_eq. simpl.
  split; [|done].
  destruct (w <? oldWindowWidth p) eqn:Hlt; [lia|].
  destruct (oldWindowWidth p <? w) eqn:Hgt; [|lia].
  apply mapM_Some in Hg. eapply Forall2_impl; [exact Hg|].
  intros m m' Hm. simpl in Hm. split; [|split; [|split]].
  - by eapply grow_postcondition.
  - by eapply grow_fontSize_max.
  - intros Hfit. by eapply grow_fitting_not_below.
  - by eapply grow_frame.
Qed.

(** X8.  The handler remembers the width it has dealt with: a second resize
    event with the same width, whatever the layout then, changes nothing. *)
Theorem resize_again_same_width_is_noop L L' fuel fuel' w p p' :
  dispatch fuel (Resize w L) p = Some p' ->
  dispatch fuel' (Resize w L') p' = Some p'.
Proof.
  intros H. cbn [dispatch] in *. unfold adjustMemeTextSize in *.
  cbn [innerWidth oldWindowWidth memeGrid setInnerWidth] in *.
  apply bind_Some in H as (g' & Hg & Hp). simplify_eq.
  cbn [innerWidth oldWindowWidth memeGrid]. rewrite Z.ltb_irrefl. reflexivity.
Qed.

(** X9.  A narrowing resize returns as soon as every card has, within [B] px
    below its font size, a size at which its caption fits: [B + 1] calls
    for each card are enough. *)
Theorem narrowing_resize_returns L B w p :
  w < oldWindowWidth p ->
  Forall (λ m, ∃ k, k ≤ fontSize m ∧ fontSize m - k ≤ B
                    ∧ fitsAt L m k = true) (memeGrid p) ->
  ∃ p', dispatch (S (Z.to_nat B)) (Resize w L) p = Some p'.
Proof.
  intros Hw Hall. cbn [dispatch]. unfold adjustMemeTextSize.
  cbn [innerWidth oldWindowWidth memeGrid setInnerWidth].
  destruct (w <? oldWindowWidth p) eqn:Hlt; [|lia].
  destruct (mapM (shrinkTextToFit L (S (Z.to_nat B))) (memeGrid p))
    as [g'|] eqn:Hg; [simpl; eauto|].
  apply mapM_None in Hg. apply Exists_exists in Hg as (m & Hin & Hnone).
  rewrite Forall_forall in Hall. destruct (Hall m Hin) as (k & Hk & HB & Hfit).
  destruct (helper_terminates L (Z.to_nat B) m (fontSize m) k) as [r Hr];
    [done|lia|done|].
  rewrite setFontSize_fontSize in Hr. unfold shrinkTextToFit in Hnone.
  congruence.
Qed.

Lemma image_load_result L fuel i p p' :
  dispatch fuel (ImageLoad i L) p = Some p' ->
  length (memeGrid p') = length (memeGrid p)
  ∧ (∀ j, j ≠ i -> memeGrid p' !! j = memeGrid p !! j)
  ∧ (∀ m, memeGrid p !! i = Some m ->
       ∃ m', memeGrid p' !! i = Some m'
             ∧ textFits L m' = true
             ∧ fontSize m' ≤ fontSize m
             ∧ m' = setFontSize (fontSize m') m)
  ∧ (memeGrid p !! i = None -> p' = p).
Proof.
  cbn [dispatch]. unfold imageLoadHandler. intros H.
  destruct (memeGrid p !! i) as [m|] eqn:Hi.
  - apply bind_Some in H as (m' & Hm & Hp). simplify_eq.
    cbn [memeGrid setMemeGrid]. split; [apply length_insert|].
    split; [|split; [|done]].
    + intros j Hj. by apply list_lookup_insert_ne.
    + intros m0 Hm0. simplify_eq. exists m'. split.
      * apply list_lookup_insert_eq. by eapply lookup_lt_Some.
      * split; [by eapply helper_fits|].
        split; [by eapply shrink_fontSize_le|by eapply shrink_frame].
  - simplify_eq. repeat split; try done.
Qed.

(** X10.  The load of a meme's image refits that meme and no other.  If the
    caption of the meme fits at some font size at or below its own, the
    handler returns, from some bound on the recursion on for every bound,
    the grid changed at that position only: the card there has its caption
    fitting, a font size at most its old one and nothing else changed.  If
    the caption fits at no such size the handler returns for no bound.  A
    load for a position the grid does not have returns the page as it is.
    Whenever the handler returns, the grid has the same length, every other
    position holds the card it held, and the card of the image fits. *)
Theorem image_load_refits_its_card L i p :
  (∀ m, memeGrid p !! i = Some m ->
     (∃ k, k ≤ fontSize m ∧ fitsAt L m k = true) ->
     ∃ fuel m',
       (∀ fuel', (fuel ≤ fuel')%nat ->
          dispatch fuel' (ImageLoad i L) p
          = Some (setMemeGrid (<[i := m']> (memeGrid p)) p))
       ∧ textFits L m' = true
       ∧ fontSize m' ≤ fontSize m
       ∧ m' = setFontSize (fontSize m') m)
  ∧ (∀ m, memeGrid p !! i = Some m ->
       (∀ k, k ≤ fontSize m -> fitsAt L m k = false) ->
       ∀ fuel, dispatch fuel (ImageLoad i L) p = None)
  ∧ (memeGrid p !! i = None ->
     ∀ fuel, dispatch fuel (ImageLoad i L) p = Some p)
  ∧ (∀ fuel p',
       dispatch fuel (ImageLoad i L) p = Some p' ->
       length (memeGrid p') = length (memeGrid p)
       ∧ (∀ j, j ≠ i -> memeGrid p' !! j = memeGrid p !! j)
       ∧ (∀ m, memeGrid p !! i = Some m ->
            ∃ m', memeGrid p' !! i = Some m'
                  ∧ textFits L m' = true
                  ∧ fontSize m' ≤ fontSize m
                  ∧ m' = setFontSize (fontSize m') m)
       ∧ (memeGrid p !! i = None -> p' = p)).
Proof.
  split; [|split; [|split]].
  - intros m Hi (k & Hk & Hfit).
    destruct (helper_terminates L (Z.to_nat (fontSize m - k)) m (fontSize m) k)
      as [r Hr]; [done|lia|done|].
    rewrite setFontSize_fontSize in Hr.
    exists (S (Z.to_nat (fontSize m - k))), r. split; [|split; [|split]].
    + intros fuel' Hle. cbn [dispatch]. unfold imageLoadHandler. rewrite Hi.
      assert (shrinkTextToFit L fuel' m = Some r) as ->
        by (by eapply shrink_fuel_mono).
      reflexivity.
    + by eapply helper_fits.
    + by eapply shrink_fontSize_le.
    + by eapply shrink_frame.
  - intros m Hi Hno fuel. cbn [dispatch]. unfold imageLoadHandler. rewrite Hi.
    unfold shrinkTextToFit. rewrite <- (setFontSize_fontSize m) at 1.
    by rewrite helper_diverges.
  - intros Hi fuel. cbn [dispatch]. unfold imageLoadHandler. by rewrite Hi.
  - intros fuel p'. apply image_load_result.
Qed.

(** ** Raising and lowering curtains *)

Lemma setToggleVisibility_unarmed m :
  toggleVisibility m = false -> setToggleVisibility false m = m.
Proof. destruct m; simpl. by intros ->. Qed.

Lemma disarm_noneArmed g :
  armedCount g = 0%nat -> setToggleVisibility false <$> g = g.
Proof.
  induction g as [|m g IH]; [done|]. rewrite armedCount_cons.
  rewrite ownCurtainVisible_toggle. destruct (toggleVisibility m) eqn:Am.
  - simpl. lia.
  - intros Hc. change (armedCount g = 0%nat) in Hc. cbn [fmap list_fmap].
    rewrite setToggleVisibility_unarmed by done. f_equal. by apply IH.
Qed.

Lemma removeCurtain_disarms g :
  (armedCount g ≤ 1)%nat -> removeCurtain g = setToggleVisibility false <$> g.
Proof.
  induction g as [|m g IH]; [done|]. rewrite removeCurtain_cons.
  rewrite armedCount_cons, ownCurtainVisible_toggle.
  destruct (toggleVisibility m) eqn:Am; intros Hc; cbn [fmap list_fmap].
  - f_equal. symmetry. apply disarm_noneArmed. simpl in Hc.
    change (S (armedCount g) ≤ 1)%nat in Hc. lia.
  - rewrite setToggleVisibility_unarmed by done. f_equal. by apply IH.
Qed.

Lemma armedCount_disarm g : armedCount (setToggleVisibility false <$> g) = 0%nat.
Proof.
  induction g as [|m g IH]; [done|]. cbn [fmap list_fmap].
  rewrite armedCount_cons. by rewrite IH.
Qed.

Lemma armedCount_arm_one d (g : list Meme) md :
  armedCount g = 0%nat -> g !! d = Some md ->
  armedCount (alter (setToggleVisibility true) d g) = 1%nat.
Proof.
  revert d. induction g as [|m g IH]; intros d Hc Hd; [done|].
  rewrite armedCount_cons in Hc.
  destruct (ownCurtainVisible m) eqn:Am; [simpl in Hc; lia|].
  change (armedCount g = 0%nat) in Hc.
  destruct d as [|d]; cbn [alter list_alter]; rewrite armedCount_cons.
  - by rewrite Hc.
  - rewrite Am. simpl in Hd. by rewrite (IH d).
Qed.

Lemma delete_alter {A} (f : A -> A) d (l : list A) :
  delete d (alter f d l) = delete d l.
Proof.
  revert d. induction l as [|x l IH]; intros [|d]; simpl; try done.
  f_equal. apply IH.
Qed.

Lemma alter_hide_show d (g : list Meme) md :
  g !! d = Some md -> toggleVisibility md = false ->
  alter (setToggleVisibility false) d (alter (setToggleVisibility true) d g) = g.
Proof.
  revert d. induction g as [|m g IH]; intros [|d] Hd Am; simpl in *; try done.
  - simplify_eq. f_equal. destruct md; simpl in *. by subst.
  - f_equal. by apply IH.
Qed.

(** The grid after [removeCurtain] and [addCurtain] on a page with at most
    one card armed: every curtain hidden, then the one of [d] shown. *)
Lemma rearm_grid (g : list Meme) d md :
  (armedCount g ≤ 1)%nat -> g !! d = Some md ->
  addCurtain d (removeCurtain g)
  = alter (setToggleVisibility true) d (setToggleVisibility false <$> g)
  ∧ length (addCurtain d (removeCurtain g)) = length g
  ∧ addCurtain d (removeCurtain g) !! d = Some (setToggleVisibility true md)
  ∧ (∀ j m, j ≠ d -> g !! j = Some m ->
       addCurtain d (removeCurtain g) !! j
       = Some (setToggleVisibility false m))
  ∧ armedCount (addCurtain d (removeCurtain g)) = 1%nat.
Proof.
  intros Hone Hd. unfold addCurtain. rewrite removeCurtain_disarms by done.
  split; [done|]. split; [by rewrite length_alter, length_fmap|].
  split; [|split].
  - by rewrite list_lookup_alter_eq, list_lookup_fmap, Hd.
  - intros j m Hj Hm. rewrite list_lookup_alter_ne by done.
    by rewrite list_lookup_fmap, Hm.
  - eapply armedCount_arm_one; [apply armedCount_disarm|].
    by rewrite list_lookup_fmap, Hd.
Qed.

Lemma removeCurtain_count_pred g :
  armedCount (removeCurtain g) = pred (armedCount g).
Proof.
  induction g as [|m g IH]; [done|]. rewrite removeCurtain_cons.
  rewrite !armedCount_cons, ownCurtainVisible_toggle.
  destruct (toggleVisibility m) eqn:Am.
  - rewrite armedCount_cons. reflexivity.
  - rewrite armedCount_cons, ownCurtainVisible_toggle, Am. exact IH.
Qed.

(** X11.  [removeCurtain] hides the first visible curtain of the grid and
    touches nothing else: if the card at position [i] has its curtain
    visible and no card before it has, the result is the grid with the
    curtain of [i] hidden, every other position (a later card with a visible
    curtain included) as it was.  A grid with no visible curtain is
    returned as it is.  So the number of visible curtains goes down by one,
    staying at zero, and the grid keeps its length. *)
Theorem removeCurtain_hides_one (g : list Meme) :
  (∀ i m,
     g !! i = Some m -> toggleVisibility m = true ->
     (∀ j y, (j < i)%nat -> g !! j = Some y -> toggleVisibility y = false) ->
     removeCurtain g = alter (setToggleVisibility false) i g
     ∧ removeCurtain g !! i = Some (setToggleVisibility false m)
     ∧ ∀ j, j ≠ i -> removeCurtain g !! j = g !! j)
  ∧ (noneArmed g -> removeCurtain g = g)
  ∧ armedCount (removeCurtain g) = pred (armedCount g)
  ∧ length (removeCurtain g) = length g.
Proof.
  split; [|split; [|split]].
  - intros i m Hi Am Hfirst.
    assert (Hfind : list_find (λ m, toggleVisibility m = true) g = Some (i, m)).
    { apply list_find_Some. split; [done|]. split; [done|].
      intros j y Hj Hlt Hy. rewrite (Hfirst j y Hlt Hj) in Hy. discriminate. }
    assert (Heq : removeCurtain g = alter (setToggleVisibility false) i g).
    { unfold removeCurtain, querySelectorCurtain. by rewrite Hfind. }
    rewrite Heq. split; [done|]. split.
    + by rewrite list_lookup_alter_eq, Hi.
    + intros j Hj. by apply list_lookup_alter_ne.
  - intros Hnone. apply armedCount_zero in Hnone.
    rewrite removeCurtain_disarms by lia. by apply disarm_noneArmed.
  - apply removeCurtain_count_pred.
  - apply removeCurtain_length.
Qed.

(** X12.  With at most one card armed, a click on a card [d] that is not
    armed arms it and no other: the grid keeps its length, [d] gets its
    curtain shown, every other card has its curtain hidden and is otherwise
    as it was, and exactly one card is armed afterwards. *)
Theorem click_unarmed_card_arms_it p d md :
  atMostOneArmed (memeGrid p) ->
  memeGrid p !! d = Some md ->
  ownCurtainVisible md = false ->
  length (memeGrid (memeClickHandler (Some d) p)) = length (memeGrid p)
  ∧ memeGrid (memeClickHandler (Some d) p) !! d
    = Some (setToggleVisibility true md)
  ∧ (∀ j m, j ≠ d -> memeGrid p !! j = Some m ->
       memeGrid (memeClickHandler (Some d) p) !! j
       = Some (setToggleVisibility false m))
  ∧ armedCount (memeGrid (memeClickHandler (Some d) p)) = 1%nat.
Proof.
  intros Hone Hd Am. apply armedCount_le1 in Hone.
  unfold memeClickHandler, closestMeme. rewrite Hd, Am.
  cbn [memeGrid setMemeGrid].
  destruct (rearm_grid _ _ _ Hone Hd) as (_ & Hlen & Hat & Hother & Hcount).
  done.
Qed.

(** X13.  With at most one card armed, a click outside every card disarms
    the armed one: each card has its curtain hidden and is otherwise as it
    was, no card is armed, none is deleted. *)
Theorem click_outside_disarms p :
  atMostOneArmed (memeGrid p) ->
  memeClickHandler None p
  = setMemeGrid (setToggleVisibility false <$> memeGrid p) p
  ∧ noneArmed (memeGrid (memeClickHandler None p))
  ∧ length (memeGrid (memeClickHandler None p)) = length (memeGrid p).
Proof.
  intros Hone. apply armedCount_le1 in Hone.
  unfold memeClickHandler, closestMeme. cbn [memeGrid setMemeGrid].
  rewrite removeCurtain_disarms by done. split; [done|]. split.
  - apply armedCount_zero, armedCount_disarm.
  - apply length_fmap.
Qed.

(** X14.  With at most one card armed, two clicks in a row on a card that was
    not armed delete it, and so does a mouse-over followed by a click: what
    is left is the old grid without that card, every curtain hidden. *)
Theorem arm_then_click_deletes p d md :
  atMostOneArmed (memeGrid p) ->
  memeGrid p !! d = Some md ->
  ownCurtainVisible md = false ->
  memeClickHandler (Some d) (memeClickHandler (Some d) p)
  = setMemeGrid (delete d (setToggleVisibility false <$> memeGrid p)) p
  ∧ memeClickHandler (Some d) (mouseOverHandler d p)
    = setMemeGrid (delete d (setToggleVisibility false <$> memeGrid p)) p.
Proof.
  intros Hone Hd Am. apply armedCount_le1 in Hone.
  destruct (rearm_grid _ _ _ Hone Hd) as (Hg & _ & Hat & _ & _).
  assert (Hclick : memeClickHandler (Some d) p = mouseOverHandler d p).
  { unfold memeClickHandler, closestMeme, mouseOverHandler.
    by rewrite Hd, Am. }
  rewrite Hclick.
  assert (memeClickHandler (Some d) (mouseOverHandler d p)
          = setMemeGrid (delete d (setToggleVisibility false <$> memeGrid p)) p)
    as Hdel; [|by split].
  unfold memeClickHandler, closestMeme.
  unfold mouseOverHandler. cbn [memeGrid setMemeGrid]. rewrite Hat.
  rewrite ownCurtainVisible_toggle. cbn [toggleVisibility setToggleVisibility].
  unfold deleteMeme. rewrite Hg, delete_alter. reflexivity.
Qed.

(** X15.  On a page with no card armed, moving the pointer onto a card that
    carries the hover listeners and off it again gives the page back as it
    was. *)
Theorem hover_enter_leave_round_trip fuel p d :
  noneArmed (memeGrid p) ->
  hoverWired (memeGrid p) d = true ->
  run fuel [MouseOver d; MouseLeave d] p = Some p.
Proof.
  intros Hnone Hw. apply armedCount_zero in Hnone.
  unfold hoverWired in Hw.
  destruct (memeGrid p !! d) as [md|] eqn:Hd; [|done].
  destruct (rearm_grid (memeGrid p) d md ltac:(lia) Hd)
    as (Hg & Hlen & Hat & _ & Hcount).
  assert (Amd : toggleVisibility md = false).
  { apply armedCount_zero in Hnone. unfold noneArmed in Hnone.
    rewrite Forall_lookup in Hnone. specialize (Hnone _ _ Hd).
    by rewrite ownCurtainVisible_toggle in Hnone. }
  assert (H1 : hoverWired (memeGrid p) d = true).
  { unfold hoverWired. by rewrite Hd. }
  assert (H2 : hoverWired (memeGrid (mouseOverHandler d p)) d = true).
  { unfold hoverWired, mouseOverHandler. cbn [memeGrid setMemeGrid].
    by rewrite Hat. }
  cbn [run dispatch]. rewrite H1. cbn [mbind option_bind]. rewrite H2.
  cbn [mbind option_bind]. f_equal.
  unfold mouseLeaveHandler, mouseOverHandler. cbn [memeGrid setMemeGrid].
  rewrite (removeCurtain_armed _ d (setToggleVisibility true md));
    [|lia|done|done].
  rewrite Hg, disarm_noneArmed by done.
  rewrite (alter_hide_show d (memeGrid p) md) by done.
  destruct p; reflexivity.
Qed.

(** X16.  With at most one card armed, a mouse-over on a card arms it and no
    other, whether or not it was armed already, and deletes nothing. *)
Theorem mouse_over_arms_hovered_card p d md :
  atMostOneArmed (memeGrid p) ->
  memeGrid p !! d = Some md ->
  length (memeGrid (mouseOverHandler d p)) = length (memeGrid p)
  ∧ memeGrid (mouseOverHandler d p) !! d = Some (setToggleVisibility true md)
  ∧ (∀ j m, j ≠ d -> memeGrid p !! j = Some m ->
       memeGrid (mouseOverHandler d p) !! j
       = Some (setToggleVisibility false m))
  ∧ armedCount (memeGrid (mouseOverHandler d p)) = 1%nat.
Proof.
  intros Hone Hd. apply armedCount_le1 in Hone.
  unfold mouseOverHandler. cbn [memeGrid setMemeGrid].
  destruct (rearm_grid _ _ _ Hone Hd) as (_ & Hlen & Hat & Hother & Hcount).
  done.
Qed.

(** ** What every page keeps *)

Section GridInvariant.

Variable Q : Meme -> Prop.

Hypothesis Q_curtain : ∀ b m, Q m -> Q (setToggleVisibility b m).

Hypothesis Q_pass :
  ∀ L fuel m r,
    shrinkTextToFit L fuel m = Some r ∨ growTextToFit L fuel m = Some r ->
    Q m -> Q r.

Lemma removeCurtain_Forall g : Forall Q g -> Forall Q (removeCurtain g).
Proof.
  intros H. unfold removeCurtain. destruct (querySelectorCurtain g); [|done].
  apply Forall_alter; [done|]. intros m _. apply Q_curtain.
Qed.

Lemma addCurtain_Forall d g : Forall Q g -> Forall Q (addCurtain d g).
Proof.
  intros H. unfold addCurtain. apply Forall_alter; [done|].
  intros m _. apply Q_curtain.
Qed.

Lemma mapM_pass_Forall (f : Meme -> option Meme) g g' :
  (∀ m r, f m = Some r -> Q m -> Q r) ->
  mapM f g = Some g' -> Forall Q g -> Forall Q g'.
Proof.
  intros Hf Hm. apply mapM_Some in Hm.
  induction Hm as [|m r g g' Hmr _ IH]; [done|].
  rewrite !Forall_cons. intros [Hq Hg]. split; [by eapply Hf|by apply IH].
Qed.

(** Every handler keeps [Q] on the cards of the grid, a submit provided its
    new card has it. *)
Lemma dispatch_Forall fuel ev p p' :
  dispatch fuel ev p = Some p' ->
  (∀ css m, ev = Submit css ->
     memeGrid (generateMeme css p) = memeGrid p ++ [m] -> Q m) ->
  Forall Q (memeGrid p) -> Forall Q (memeGrid p').
Proof.
  intros H Hnew Hq. destruct ev; cbn [dispatch] in H.
  - simplify_eq. cbn [generateMeme memeGrid]. apply Forall_app. split; [done|].
    apply Forall_singleton. by eapply Hnew.
  - simplify_eq. unfold memeClickHandler.
    destruct (closestMeme (memeGrid p) target) as [[i m]|];
      [destruct (ownCurtainVisible m)|]; cbn [memeGrid setMemeGrid].
    + by apply Forall_delete.
    + by apply addCurtain_Forall, removeCurtain_Forall.
    + by apply removeCurtain_Forall.
  - destruct (hoverWired _ _); simplify_eq; [|done].
    cbn [mouseOverHandler memeGrid setMemeGrid].
    by apply addCurtain_Forall, removeCurtain_Forall.
  - destruct (hoverWired _ _); simplify_eq; [|done].
    cbn [mouseLeaveHandler memeGrid setMemeGrid].
    by apply removeCurtain_Forall.
  - unfold adjustMemeTextSize in H.
    cbn [innerWidth oldWindowWidth memeGrid setInnerWidth] in H.
    apply bind_Some in H as (g' & Hg & Hp). simplify_eq. cbn [memeGrid].
    destruct (width <? oldWindowWidth p).
    + eapply mapM_pass_Forall; [|exact Hg|done].
      intros m r Hm. apply (Q_pass L fuel). by left.
    + destruct (oldWindowWidth p <? width); [|by simplify_eq].
      eapply mapM_pass_Forall; [|exact Hg|done].
      intros m r Hm. apply (Q_pass L fuel). by right.
  - unfold imageLoadHandler in H.
    destruct (memeGrid p !! memeElement) as [m|] eqn:Hi; [|by simplify_eq].
    apply bind_Some in H as (m' & Hm & Hp). simplify_eq.
    cbn [memeGrid setMemeGrid]. apply Forall_insert; [done|].
    apply (Q_pass L fuel m); [by left|].
    rewrite Forall_lookup in Hq. by eapply Hq.
  - by simplify_eq.
  - by simplify_eq.
Qed.

End GridInvariant.

Lemma upperChar_idempotent c : upperChar (upperChar c) = upperChar c.
Proof. destruct c as [[] [] [] [] [] [] [] []]; reflexivity. Qed.

Lemma upperChar_not_lower c : isLowerCase (upperChar c) = false.
Proof. destruct c as [[] [] [] [] [] [] [] []]; reflexivity. Qed.

Lemma toUpperCase_idempotent s : toUpperCase (toUpperCase s) = toUpperCase s.
Proof.
  induction s as [|c s IH]; [done|]. simpl.
  by rewrite upperChar_idempotent, IH.
Qed.

Lemma toUpperCase_noLowerCase s : noLowerCase (toUpperCase s) = true.
Proof.
  induction s as [|c s IH]; [done|]. simpl.
  by rewrite upperChar_not_lower, IH.
Qed.

Lemma toUpperCase_length s : String.length (toUpperCase s) = String.length s.
Proof. induction s as [|c s IH]; [done|]. simpl. by rewrite IH. Qed.

(** X17.  Only a submit adds a card and only a click removes one: a submit
    makes the grid one longer, a click leaves its length or makes it one
    shorter, and every other event leaves its length. *)
Theorem grid_length_by_event fuel ev p p' :
  dispatch fuel ev p = Some p' ->
  match ev with
  | Submit _ => length (memeGrid p') = S (length (memeGrid p))
  | Click _ =>
      length (memeGrid p') = length (memeGrid p)
      ∨ S (length (memeGrid p')) = length (memeGrid p)
  | _ => length (memeGrid p') = length (memeGrid p)
  end.
Proof.
  intros H. destruct ev; cbn [dispatch] in H.
  - simplify_eq. cbn [generateMeme memeGrid]. rewrite length_app. simpl. lia.
  - simplify_eq. unfold memeClickHandler, closestMeme.
    destruct target as [i|].
    + destruct (memeGrid p !! i) as [m|] eqn:Hi.
      * destruct (ownCurtainVisible m); cbn [memeGrid setMemeGrid].
        -- right. unfold deleteMeme. rewrite length_delete by eauto.
           apply lookup_lt_Some in Hi. lia.
        -- left. unfold addCurtain.
           by rewrite length_alter, removeCurtain_length.
      * left. apply removeCurtain_length.
    + left. apply removeCurtain_length.
  - destruct (hoverWired _ _); simplify_eq; [|done].
    cbn [mouseOverHandler memeGrid setMemeGrid]. unfold addCurtain.
    by rewrite length_alter, removeCurtain_length.
  - destruct (hoverWired _ _); simplify_eq; [|done].
    apply removeCurtain_length.
  - unfold adjustMemeTextSize in H.
    cbn [innerWidth oldWindowWidth memeGrid setInnerWidth] in H.
    apply bind_Some in H as (g' & Hg & Hp). simplify_eq. cbn [memeGrid].
    destruct (width <? oldWindowWidth p).
    + symmetry. by eapply length_mapM.
    + destruct (oldWindowWidth p <? width); [|by simplify_eq].
      symmetry. by eapply length_mapM.
  - unfold imageLoadHandler in H.
    destruct (memeGrid p !! memeElement) as [m|] eqn:Hi; [|by simplify_eq].
    apply bind_Some in H as (m' & Hm & Hp). simplify_eq.
    apply length_insert.
  - by simplify_eq.
  - by simplify_eq.
Qed.

(** X18.  If every card of the page is at 40px or less and every submit
    creates its card at 40px or less, then after every sequence of events
    every card is at 40px or less. *)
Theorem font_size_ceiling_kept p0 evs p :
  Forall (λ m, fontSize m ≤ 40) (memeGrid p0) ->
  Forall (λ ev, submitWithin40 ev = true) evs ->
  reaches p0 evs p ->
  Forall (λ m, fontSize m ≤ 40) (memeGrid p).
Proof.
  intros H0 Hevs Hr. induction Hr as [|evs ev p p' fuel _ IH Hd]; [done|].
  apply Forall_app in Hevs as [Hevs Hev]. rewrite Forall_singleton in Hev.
  eapply (dispatch_Forall (λ m, fontSize m ≤ 40)); [| |exact Hd| |by apply IH].
  - intros b m Hm. exact Hm.
  - intros L f m r [Hs|Hg] Hm.
    + apply shrink_fontSize_le in Hs. lia.
    + apply grow_fontSize_max in Hg. lia.
  - intros css m -> Hm. cbn [generateMeme memeGrid] in Hm.
    apply app_inv_head in Hm. simplify_eq. cbn [fontSize].
    cbn [submitWithin40] in Hev. lia.
Qed.

(** X19.  If both caption lines of every card are in upper case and every
    card has the alternative text ["failed to load image"], as on the page
    the script starts with, the same holds after every sequence of events:
    no handler rewrites a caption and a submit stores the upper-case form. *)
Theorem captions_stay_upper_case p0 evs p :
  Forall (λ m, upperCaseCaptions m ∧ alt m = "failed to load image"%string)
    (memeGrid p0) ->
  reaches p0 evs p ->
  Forall (λ m, upperCaseCaptions m ∧ alt m = "failed to load image"%string)
    (memeGrid p).
Proof.
  intros H0 Hr. induction Hr as [|evs ev p p' fuel _ IH Hd]; [done|].
  eapply (dispatch_Forall
            (λ m, upperCaseCaptions m ∧ alt m = "failed to load image"%string));
    [| |exact Hd| |exact IH].
  - intros b m Hm. exact Hm.
  - intros L f m r Hpass Hm.
    assert (r = setFontSize (fontSize r) m) as ->; [|exact Hm].
    destruct Hpass as [Hs|Hg]; [by eapply shrink_frame|by eapply grow_frame].
  - intros css m _ Hm. cbn [generateMeme memeGrid] in Hm.
    apply app_inv_head in Hm. simplify_eq. unfold upperCaseCaptions.
    cbn [topText bottomText alt]. by rewrite !toUpperCase_idempotent.
Qed.

(** ** Submitting, whatever was typed *)

(** X20.  Whatever was typed, a submit appends one card that is not armed,
    whose caption lines are as long as the typed ones and hold no letter
    a-z, and it does not matter whether the captions were typed in upper
    case or not: the page after the submit is the same. *)
Theorem submit_normalises_captions cssFontSize url top bottom p :
  ∃ card,
    memeGrid (generateMeme cssFontSize (setInputs url top bottom p))
    = memeGrid p ++ [card]
    ∧ toggleVisibility card = false
    ∧ noLowerCase (topText card) = true
    ∧ noLowerCase (bottomText card) = true
    ∧ String.length (topText card) = String.length top
    ∧ String.length (bottomText card) = String.length bottom
    ∧ generateMeme cssFontSize
        (setInputs url (toUpperCase top) (toUpperCase bottom) p)
      = generateMeme cssFontSize (setInputs url top bottom p).
Proof.
  eexists. split; [reflexivity|]. cbn [toggleVisibility topText bottomText].
  cbn [topTextInput bottomTextInput setInputs].
  split; [done|]. split; [apply toUpperCase_noLowerCase|].
  split; [apply toUpperCase_noLowerCase|].
  split; [apply toUpperCase_length|]. split; [apply toUpperCase_length|].
  unfold generateMeme. cbn [topTextInput bottomTextInput imageInput setInputs
                             memeGrid innerWidth oldWindowWidth mqlHover].
  by rewrite !toUpperCase_idempotent.
Qed.

(** X21.  A card gets its hover listeners from the hover capability at the
    moment it is created and keeps them: whatever the capability becomes
    later, the new card is hover-wired exactly if the capability held at the
    submit, and a card created without it ignores mouse-over and
    mouse-leave. *)
Theorem hover_wiring_fixed_at_creation cssFontSize b fuel p :
  hoverWired (memeGrid (setMqlHover b (generateMeme cssFontSize p)))
    (length (memeGrid p))
  = mqlHover p
  ∧ (mqlHover p = false ->
     dispatch fuel (MouseOver (length (memeGrid p)))
       (setMqlHover b (generateMeme cssFontSize p))
     = Some (setMqlHover b (generateMeme cssFontSize p))
     ∧ dispatch fuel (MouseLeave (length (memeGrid p)))
         (setMqlHover b (generateMeme cssFontSize p))
       = Some (setMqlHover b (generateMeme cssFontSize p))).
Proof.
  assert (Hw : hoverWired
                 (memeGrid (setMqlHover b (generateMeme cssFontSize p)))
                 (length (memeGrid p)) = mqlHover p).
  { unfold hoverWired. cbn [memeGrid setMqlHover generateMeme].
    by rewrite list_lookup_middle. }
  split; [exact Hw|]. intros Hoff. cbn [dispatch]. rewrite Hw, Hoff. done.
Qed.

(** ** Placeholders *)

Lemma screenWidth580Test_inserts matches (inputList : list string) :
  (3 ≤ length inputList)%nat ->
  screenWidth580Test matches inputList
  = Returned (<[2%nat := bottomPlaceholder matches]>
                (<[1%nat := topPlaceholder matches]> inputList)).
Proof.
  intros Hlen. unfold screenWidth580Test, setPlaceholder.
  destruct (inputList !! 1%nat) as [x|] eqn:H1.
  2: { apply lookup_ge_None in H1. lia. }
  destruct matches.
  - destruct (<[1%nat := "(Optional) Top Text"%string]> inputList !! 2%nat)
      as [y|] eqn:H2; [done|].
    apply lookup_ge_None in H2. rewrite length_insert in H2. lia.
  - destruct (<[1%nat :=
                 "(Optional) What text will go at the top of your meme?"%string]>
                inputList !! 2%nat) as [y|] eqn:H2; [done|].
    apply lookup_ge_None in H2. rewrite length_insert in H2. lia.
Qed.

(** X22.  On a form with at least three inputs [screenWidth580Test] returns;
    it sets the placeholders of the second and third input and of no other,
    and the last call decides: after a call for one screen width, a call for
    another gives what it would have given at once. *)
Theorem screenWidth580Test_sets_two_placeholders matches (inputList : list string) :
  (3 ≤ length inputList)%nat ->
  ∃ inputList',
    screenWidth580Test matches inputList = Returned inputList'
    ∧ length inputList' = length inputList
    ∧ inputList' !! 1%nat = Some (topPlaceholder matches)
    ∧ inputList' !! 2%nat = Some (bottomPlaceholder matches)
    ∧ (∀ j, j ≠ 1%nat -> j ≠ 2%nat -> inputList' !! j = inputList !! j)
    ∧ (∀ later, screenWidth580Test later inputList'
                = screenWidth580Test later inputList).
Proof.
  intros Hlen. eexists. split; [by apply screenWidth580Test_inserts|].
  split; [by rewrite !length_insert|]. split; [|split; [|split]].
  - rewrite list_lookup_insert_ne by done.
    apply list_lookup_insert_eq. lia.
  - apply list_lookup_insert_eq. rewrite length_insert. lia.
  - intros j H1 H2. by rewrite !list_lookup_insert_ne.
  - intros later. rewrite !screenWidth580Test_inserts;
      [|done|by rewrite !length_insert]. f_equal.
    rewrite (list_insert_insert_ne _ 1 2) by done.
    by rewrite !list_insert_insert_eq.
Qed.

(** X23.  On a form with fewer than three inputs [screenWidth580Test] throws:
    with fewer than two before any placeholder is set, with exactly two
    after the placeholder of the second input has been set. *)
Theorem screenWidth580Test_throws_on_short_form matches (inputList : list string) :
  (length inputList < 3)%nat ->
  ∃ inputList',
    screenWidth580Test matches inputList = ThrewTypeError inputList'
    ∧ ((length inputList < 2)%nat -> inputList' = inputList)
    ∧ (length inputList = 2%nat ->
       inputList' = <[1%nat := topPlaceholder matches]> inputList).
Proof.
  intros Hlen. unfold screenWidth580Test, setPlaceholder.
  destruct (inputList !! 1%nat) as [x|] eqn:H1.
  - apply lookup_lt_Some in H1.
    destruct matches.
    + destruct (<[1%nat := "(Optional) Top Text"%string]> inputList !! 2%nat)
        as [y|] eqn:H2.
      { apply lookup_lt_Some in H2. rewrite length_insert in H2. lia. }
      eexists. split; [done|]. split; [lia|done].
    + destruct (<[1%nat :=
                   "(Optional) What text will go at the top of your meme?"%string]>
                  inputList !! 2%nat) as [y|] eqn:H2.
      { apply lookup_lt_Some in H2. rewrite length_insert in H2. lia. }
      eexists. split; [done|]. split; [lia|done].
  - apply lookup_ge_None in H1.
    destruct matches; eexists; (split; [done|]); (split; [done|lia]).
Qed.

(** ** The properties above at sample inputs *)

Lemma shrink_returns_largest_fit_witness :
  fontSize (sampleMeme 30 false) ≤ fontSize (sampleMeme 40 false)
  ∧ sampleMeme 30 false
    = setFontSize (fontSize (sampleMeme 30 false)) (sampleMeme 40 false)
  ∧ textFits (lineLayout 0 60) (sampleMeme 30 false) = true
  ∧ ∀ j, fontSize (sampleMeme 30 false) < j ≤ fontSize (sampleMeme 40 false) ->
         fitsAt (lineLayout 0 60) (sampleMeme 40 false) j = false.
Proof.
  apply (shrink_returns_largest_fit (lineLayout 0 60) 11
           (sampleMeme 40 false) (sampleMeme 30 false)).
  reflexivity.
Defined.

Lemma shrink_twice_is_shrink_once_witness :
  shrinkTextToFit (lineLayout 0 60) 1 (sampleMeme 30 false)
  = Some (sampleMeme 30 false).
Proof.
  apply (shrink_twice_is_shrink_once (lineLayout 0 60) 11 0
           (sampleMeme 40 false) (sampleMeme 30 false)).
  reflexivity.
Defined.

Lemma grow_returns_when_caption_fits_witness :
  ∃ r, growTextToFit (lineLayout 0 61) 20 (sampleMeme 25 false) = Some r
       ∧ fontSize (sampleMeme 25 false) ≤ fontSize r.
Proof.
  apply (grow_returns_when_caption_fits (lineLayout 0 61) 20
           (sampleMeme 25 false)).
  - reflexivity.
  - vm_compute. lia.
Defined.

Lemma grow_twice_is_grow_once_witness :
  growTextToFit (lineLayout 0 61) 4 (sampleMeme 30 false)
  = Some (sampleMeme 30 false)
  ∧ (40 ≤ fontSize (sampleMeme 30 false)
     ∨ (textFits (lineLayout 0 61) (sampleMeme 30 false) = true
        ∧ fitsAt (lineLayout 0 61) (sampleMeme 30 false)
            (fontSize (sampleMeme 30 false) + 1) = false)).
Proof.
  apply (grow_twice_is_grow_once (lineLayout 0 61) 20 4
           (sampleMeme 25 false) (sampleMeme 30 false)).
  - reflexivity.
  - lia.
Defined.

Lemma fit_passes_change_font_size_only_witness :
  sampleMeme 30 false
  = setFontSize (fontSize (sampleMeme 30 false)) (sampleMeme 25 false)
  ∧ fontSize (sampleMeme 30 false) ≤ Z.max (fontSize (sampleMeme 25 false)) 40.
Proof.
  apply (fit_passes_change_font_size_only (lineLayout 0 61) 20
           (sampleMeme 25 false) (sampleMeme 30 false)).
  right. reflexivity.
Defined.

Lemma widening_resize_grows_witness :
  Forall2 (λ m m', (textFits (lineLayout 0 61) m' = true ∨ 40 ≤ fontSize m')
                   ∧ fontSize m' ≤ Z.max (fontSize m) 40
                   ∧ (textFits (lineLayout 0 61) m = true ->
                      fontSize m ≤ fontSize m')
                   ∧ m' = setFontSize (fontSize m') m)
    [ sampleMeme 25 false; sampleMeme 35 true ]
    [ sampleMeme 30 false; sampleMeme 30 true ]
  ∧ 1200 = 1200 ∧ 1200 = 1200.
Proof.
  apply (widening_resize_grows (lineLayout 0 61) 20 1200
           (samplePage [ sampleMeme 25 false; sampleMeme 35 true ])
           {| imageInput := ""; topTextInput := ""; bottomTextInput := "";
              memeGrid := [ sampleMeme 30 false; sampleMeme 30 true ];
              innerWidth := 1200; oldWindowWidth := 1200; mqlHover := true |}).
  - simpl. lia.
  - reflexivity.
Defined.

Lemma resize_again_same_width_is_noop_witness :
  dispatch 0 (Resize 800 (lineLayout 10 15))
    {| imageInput := ""; topTextInput := ""; bottomTextInput := "";
       memeGrid := [ sampleMeme 25 false; sampleMeme 20 true ];
       innerWidth := 800; oldWindowWidth := 800; mqlHover := true |}
  = Some {| imageInput := ""; topTextInput := ""; bottomTextInput := "";
            memeGrid := [ sampleMeme 25 false; sampleMeme 20 true ];
            innerWidth := 800; oldWindowWidth := 800; mqlHover := true |}.
Proof.
  apply (resize_again_same_width_is_noop (lineLayout 0 50) (lineLayout 10 15)
           20 0 800
           (samplePage [ sampleMeme 40 false; sampleMeme 20 true ])).
  reflexivity.
Defined.

Lemma narrowing_resize_returns_witness :
  ∃ p', dispatch (S (Z.to_nat 15)) (Resize 800 (lineLayout 0 50))
          (samplePage [ sampleMeme 40 false; sampleMeme 20 true ])
        = Some p'.
Proof.
  apply (narrowing_resize_returns (lineLayout 0 50) 15 800
           (samplePage [ sampleMeme 40 false; sampleMeme 20 true ])).
  - simpl. lia.
  - apply Forall_cons. split.
    + exists 25. split; [simpl; lia|]. split; [simpl; lia|reflexivity].
    + apply Forall_cons. split; [|apply Forall_nil; exact I].
      exists 20. split; [simpl; lia|]. split; [simpl; lia|reflexivity].
Defined.

Lemma image_load_refits_its_card_witness :
  (∃ fuel m',
     (∀ fuel', (fuel ≤ fuel')%nat ->
        dispatch fuel' (ImageLoad 1 (lineLayout 0 50))
          (samplePage [ sampleMeme 40 false; sampleMeme 40 true ])
        = Some (setMemeGrid
                  (<[1%nat := m']> [ sampleMeme 40 false; sampleMeme 40 true ])
                  (samplePage [ sampleMeme 40 false; sampleMeme 40 true ])))
     ∧ textFits (lineLayout 0 50) m' = true
     ∧ fontSize m' ≤ fontSize (sampleMeme 40 true)
     ∧ m' = setFontSize (fontSize m') (sampleMeme 40 true))
  ∧ (∀ fuel, dispatch fuel (ImageLoad 1 (lineLayout 10 15))
               (samplePage [ sampleMeme 40 false; sampleMeme 40 true ])
             = None)
  ∧ (∀ fuel, dispatch fuel (ImageLoad 5 (lineLayout 0 50))
               (samplePage [ sampleMeme 40 false; sampleMeme 40 true ])
             = Some (samplePage [ sampleMeme 40 false; sampleMeme 40 true ])).
Proof.
  split; [|split].
  - apply (proj1 (image_load_refits_its_card (lineLayout 0 50) 1
                    (samplePage [ sampleMeme 40 false; sampleMeme 40 true ]))
             (sampleMeme 40 true)).
    + reflexivity.
    + exists 25. split; [simpl; lia|reflexivity].
  - apply (proj1 (proj2 (image_load_refits_its_card (lineLayout 10 15) 1
                           (samplePage [ sampleMeme 40 false;
                                         sampleMeme 40 true ])))
             (sampleMeme 40 true)).
    + reflexivity.
    + intros k Hk. unfold fitsAt, textFits. simpl. lia.
  - apply (proj1 (proj2 (proj2 (image_load_refits_its_card (lineLayout 0 50) 5
                                  (samplePage [ sampleMeme 40 false;
                                                sampleMeme 40 true ]))))).
    reflexivity.
Defined.

Lemma removeCurtain_hides_one_witness :
  removeCurtain [ sampleMeme 40 false; sampleMeme 30 true; sampleMeme 20 true ]
  = [ sampleMeme 40 false; sampleMeme 30 false; sampleMeme 20 true ]
  ∧ removeCurtain [ sampleMeme 40 false; sampleMeme 30 false ]
    = [ sampleMeme 40 false; sampleMeme 30 false ].
Proof.
  split.
  - refine (proj1 (proj1 (removeCurtain_hides_one
                            [ sampleMeme 40 false; sampleMeme 30 true;
                              sampleMeme 20 true ])
                     1%nat (sampleMeme 30 true) eq_refl eq_refl _)).
    intros j y Hj Hy. assert (j = 0%nat) as -> by lia.
    simpl in Hy. injection Hy as <-. reflexivity.
  - apply (proj1 (proj2 (removeCurtain_hides_one
                           [ sampleMeme 40 false; sampleMeme 30 false ]))).
    apply armedCount_zero. reflexivity.
Defined.

Lemma click_unarmed_card_arms_it_witness :
  memeGrid (memeClickHandler (Some 2%nat)
              (samplePage [ sampleMeme 40 false; sampleMeme 30 true;
                            sampleMeme 20 false ])) !! 2%nat
  = Some (sampleMeme 20 true).
Proof.
  refine (proj1 (proj2 (click_unarmed_card_arms_it
                          (samplePage [ sampleMeme 40 false; sampleMeme 30 true;
                                        sampleMeme 20 false ])
                          2%nat (sampleMeme 20 false) _ eq_refl eq_refl))).
  apply armedCount_le1. vm_compute. lia.
Defined.

Lemma click_outside_disarms_witness :
  memeClickHandler None
    (samplePage [ sampleMeme 40 false; sampleMeme 30 true ])
  = samplePage [ sampleMeme 40 false; sampleMeme 30 false ].
Proof.
  refine (proj1 (click_outside_disarms
                   (samplePage [ sampleMeme 40 false; sampleMeme 30 true ]) _)).
  apply armedCount_le1. vm_compute. lia.
Defined.

Lemma arm_then_click_deletes_witness :
  memeClickHandler (Some 2%nat)
    (memeClickHandler (Some 2%nat)
       (samplePage [ sampleMeme 40 false; sampleMeme 30 true;
                     sampleMeme 20 false ]))
  = samplePage [ sampleMeme 40 false; sampleMeme 30 false ].
Proof.
  refine (proj1 (arm_then_click_deletes
                   (samplePage [ sampleMeme 40 false; sampleMeme 30 true;
                                 sampleMeme 20 false ])
                   2%nat (sampleMeme 20 false) _ eq_refl eq_refl)).
  apply armedCount_le1. vm_compute. lia.
Defined.

Lemma hover_enter_leave_round_trip_witness :
  run 0 [ MouseOver 1; MouseLeave 1 ]
    (samplePage [ sampleMeme 40 false; sampleMeme 30 false ])
  = Some (samplePage [ sampleMeme 40 false; sampleMeme 30 false ]).
Proof.
  apply (hover_enter_leave_round_trip 0
           (samplePage [ sampleMeme 40 false; sampleMeme 30 false ]) 1).
  - apply armedCount_zero. reflexivity.
  - reflexivity.
Defined.

Lemma mouse_over_arms_hovered_card_witness :
  armedCount (memeGrid (mouseOverHandler 1
                          (samplePage [ sampleMeme 40 false;
                                        sampleMeme 30 true ]))) = 1%nat.
Proof.
  refine (proj2 (proj2 (proj2 (mouse_over_arms_hovered_card
                                 (samplePage [ sampleMeme 40 false;
                                               sampleMeme 30 true ])
                                 1%nat (sampleMeme 30 true) _ eq_refl)))).
  apply armedCount_le1. vm_compute. lia.
Defined.

Lemma grid_length_by_event_witness :
  length [ sampleMeme 40 false ] = length [ sampleMeme 40 false; sampleMeme 30 true ]
  ∨ S (length [ sampleMeme 40 false ])
    = length [ sampleMeme 40 false; sampleMeme 30 true ].
Proof.
  apply (grid_length_by_event 0 (Click (Some 1%nat))
           (samplePage [ sampleMeme 40 false; sampleMeme 30 true ])
           (samplePage [ sampleMeme 40 false ])).
  reflexivity.
Defined.

Lemma font_size_ceiling_kept_witness :
  Forall (λ m, fontSize m ≤ 40) [ sampleMeme 30 false ].
Proof.
  apply (font_size_ceiling_kept (initialPage 1000 true)
           [ TypeInputs "u1" "Hello" "World"; Submit 25;
             Resize 1200 (lineLayout 0 61) ]
           {| imageInput := ""; topTextInput := ""; bottomTextInput := "";
              memeGrid := [ sampleMeme 30 false ];
              innerWidth := 1200; oldWindowWidth := 1200; mqlHover := true |}).
  - apply Forall_nil. exact I.
  - repeat (apply Forall_cons; split; [reflexivity|]). apply Forall_nil. exact I.
  - apply (run_reaches 20). reflexivity.
Defined.

Lemma captions_stay_upper_case_witness :
  Forall (λ m, upperCaseCaptions m ∧ alt m = "failed to load image"%string)
    [ sampleMeme 30 true ].
Proof.
  apply (captions_stay_upper_case (initialPage 1000 true)
           [ TypeInputs "u1" "Hello" "World"; Submit 25;
             Resize 1200 (lineLayout 0 61); MouseOver 0 ]
           {| imageInput := ""; topTextInput := ""; bottomTextInput := "";
              memeGrid := [ sampleMeme 30 true ];
              innerWidth := 1200; oldWindowWidth := 1200; mqlHover := true |}).
  - apply Forall_nil. exact I.
  - apply (run_reaches 20). reflexivity.
Defined.

Lemma hover_wiring_fixed_at_creation_witness :
  dispatch 0 (MouseOver 0)
    (setMqlHover true (generateMeme 40 (initialPage 1000 false)))
  = Some (setMqlHover true (generateMeme 40 (initialPage 1000 false))).
Proof.
  apply (proj2 (hover_wiring_fixed_at_creation 40 true 0
                  (initialPage 1000 false))).
  reflexivity.
Defined.

Lemma screenWidth580Test_sets_two_placeholders_witness :
  ∃ inputList',
    screenWidth580Test true [ "Image URL"; "top"; "bottom" ]%string
    = Returned inputList'
    ∧ length inputList' = 3%nat
    ∧ inputList' !! 1%nat = Some (topPlaceholder true)
    ∧ inputList' !! 2%nat = Some (bottomPlaceholder true)
    ∧ (∀ j, j ≠ 1%nat -> j ≠ 2%nat ->
         inputList' !! j = [ "Image URL"; "top"; "bottom" ]%string !! j)
    ∧ (∀ later, screenWidth580Test later inputList'
                = screenWidth580Test later
                    [ "Image URL"; "top"; "bottom" ]%string).
Proof.
  apply (screenWidth580Test_sets_two_placeholders true
           [ "Image URL"; "top"; "bottom" ]%string).
  simpl. lia.
Defined.

Lemma screenWidth580Test_throws_on_short_form_witness :
  ∃ inputList',
    screenWidth580Test false [ "Image URL"; "top" ]%string
    = ThrewTypeError inputList'
    ∧ ((length [ "Image URL"; "top" ]%string < 2)%nat ->
       inputList' = [ "Image URL"; "top" ]%string)
    ∧ (length [ "Image URL"; "top" ]%string = 2%nat ->
       inputList' = <[1%nat := topPlaceholder false]>
                      [ "Image URL"; "top" ]%string).
Proof.
  apply (screenWidth580Test_throws_on_short_form false
           [ "Image URL"; "top" ]%string).
  simpl. lia.
Defined.
